(** * Event Management API (main.py): a shallow embedding and its properties

    The program is a FastAPI application over MongoDB.  This development
    embeds

    - the injection guard: [BLOCK_PATTERN], [scan_for_injection],
      [sanitize_payload] and [injection_protection_middleware];
    - the identifier codec [oid] and the document normaliser [to_json];
    - the entity handlers of the four collections (events, attendees,
      venues, booking);
    - the media store: [upload_media], [stream_latest_media] and their
      six endpoints.

    Python's [re], [json] and [bson] modules, the framework's responses and
    the MongoDB server are not part of the program.  They are modelled here
    from their behaviour, in the sections named after them; the Unicode
    character tables, the JSON parser and the frames left on the
    interpreter's stack are parameters. *)

From Stdlib Require Import ZArith NArith Strings.Byte Strings.String Strings.Ascii.
From stdpp Require Import base gmap list strings.

Local Open Scope N_scope.

(** ** Python strings

    A Python [str] is a sequence of Unicode code points. *)

Abbreviation char := N.
Abbreviation pystr := (list N).

(** The [str] written by an ASCII literal of the source. *)
Definition py (s : string) : pystr := N_of_ascii <$> list_ascii_of_string s.

(** [s.startswith(p)] *)
Fixpoint startswith (s p : pystr) {struct p} : bool :=
  match p, s with
  | [], _ => true
  | _ :: _, [] => false
  | a :: p', b :: s' => (a =? b) && startswith s' p'
  end.

(** [p in s] for [str] operands. *)
Fixpoint str_contains (p s : pystr) : bool :=
  startswith s p ||
  match s with
  | [] => false
  | _ :: s' => str_contains p s'
  end.

(** The Unicode database, outside ASCII: decimal digits (category Nd),
    whitespace ([str.isspace]) and alphanumerics ([str.isalnum]).  The
    ASCII range is written out below. *)
Class UnicodeData := {
  uni_decimal : char → bool;
  uni_space : char → bool;
  uni_alnum : char → bool
}.

(** A database with nothing outside ASCII, for running examples. *)
Definition ascii_only : UnicodeData :=
  {| uni_decimal := λ _, false; uni_space := λ _, false; uni_alnum := λ _, false |}.

Section CharClasses.
Context `{UnicodeData}.

Definition between (lo hi c : char) : bool := (lo <=? c) && (c <=? hi).

(** [\d] on a [str] pattern. *)
Definition is_digit (c : char) : bool :=
  if c <? 128 then between 48 57 c else uni_decimal c.

(** [\s] on a [str] pattern: tab, LF, VT, FF, CR, FS, GS, RS, US, space. *)
Definition is_space (c : char) : bool :=
  if c <? 128 then between 9 13 c || between 28 32 c else uni_space c.

(** [\w] on a [str] pattern: alphanumerics and the underscore. *)
Definition is_word (c : char) : bool :=
  if c <? 128
  then between 48 57 c || between 65 90 c || between 97 122 c || (c =? 95)
  else uni_alnum c.
End CharClasses.

(** ** Regular expressions ([re])

    The fragment of [re] syntax [BLOCK_PATTERN] is written in, compiled
    with [re.IGNORECASE]. *)

Inductive regex :=
  | Lit (c : char)              (* a literal character *)
  | Digit                       (* \d *)
  | Space                       (* \s *)
  | WordB                       (* \b *)
  | Seq (r1 r2 : regex)         (* r1 r2 *)
  | Alt (r1 r2 : regex)         (* r1|r2 *)
  | Plus (r : regex).           (* r+ *)

(** Case folding of ASCII letters; under [re.IGNORECASE] a literal matches
    the characters that fold to the same one.  No literal of
    [BLOCK_PATTERN] has a case variant outside ASCII. *)
Definition lower (c : char) : char := if between 65 90 c then c + 32 else c.

Definition lit_matches (c x : char) : bool := lower c =? lower x.

Section Matcher.
Context `{UnicodeData}.

(** A matching position: the character before it, if any, and the rest
    of the subject. *)
Definition cont : Type := option char → pystr → bool.

Definition opt_word (o : option char) : bool :=
  match o with Some c => is_word c | None => false end.

Fixpoint plus_loop (step : option char → pystr → cont → bool) (k : cont)
    (fuel : nat) (prev : option char) (s : pystr) : bool :=
  match fuel with
  | O => false
  | S n => step prev s (λ p' s', k p' s' || plus_loop step k n p' s')
  end.

(** [match_here r prev s k]: [r] matches at the head of [s] (with [prev]
    before it) and [k] accepts what follows.  Backtracking is the
    disjunction over the alternatives. *)
Fixpoint match_here (r : regex) (prev : option char) (s : pystr) (k : cont) : bool :=
  match r with
  | Lit c => match s with x :: s' => lit_matches c x && k (Some x) s' | [] => false end
  | Digit => match s with x :: s' => is_digit x && k (Some x) s' | [] => false end
  | Space => match s with x :: s' => is_space x && k (Some x) s' | [] => false end
  | WordB => xorb (opt_word prev) (opt_word (head s)) && k prev s
  | Seq r1 r2 => match_here r1 prev s (λ p' s', match_here r2 p' s' k)
  | Alt r1 r2 => match_here r1 prev s k || match_here r2 prev s k
  | Plus r' => plus_loop (match_here r') k (S (length s)) prev s
  end.

Fixpoint search_from (r : regex) (prev : option char) (s : pystr) : bool :=
  match_here r prev s (λ _ _, true) ||
  match s with
  | [] => false
  | x :: s' => search_from r (Some x) s'
  end.

(** [pattern.search(s)], as a truth value. *)
Definition search (r : regex) (s : pystr) : bool := search_from r None s.
End Matcher.

(** ** The injection guard *)

(** [\b(OR|AND)\b\s+\d=\d] *)
Definition boolean_test : regex :=
  Seq WordB
 (Seq (Alt (Seq (Lit 79) (Lit 82))                    (* OR *)
           (Seq (Lit 65) (Seq (Lit 78) (Lit 68))))    (* AND *)
 (Seq WordB
 (Seq (Plus Space)
 (Seq Digit (Seq (Lit 61) Digit))))).

(** [(\$|\{|\}|\[|\]|;|--|/\*|\*/|\b(OR|AND)\b\s+\d=\d)] *)
Definition BLOCK_PATTERN : regex :=
  Alt (Lit 36)                                   (* \$ *)
 (Alt (Lit 123)                                  (* \{ *)
 (Alt (Lit 125)                                  (* \} *)
 (Alt (Lit 91)                                   (* \[ *)
 (Alt (Lit 93)                                   (* \] *)
 (Alt (Lit 59)                                   (* ;  *)
 (Alt (Seq (Lit 45) (Lit 45))                    (* -- *)
 (Alt (Seq (Lit 47) (Lit 42))                    (* /\* *)
 (Alt (Seq (Lit 42) (Lit 47))                    (* \*/ *)
      boolean_test)))))))).

(** Exceptions the program raises or lets through. *)
Inductive Exception :=
  | HTTPException (status_code : nat) (detail : string)
  | RecursionError
  | OverflowError
  | DuplicateKeyError
  | KeyError (key : string)
  | TypeError
  | AttributeError
  | UnicodeEncodeError.

Inductive Result (A : Type) :=
  | Return (a : A)
  | Raise (e : Exception).
Arguments Return {A} a.
Arguments Raise {A} e.

(** [x ← m; k] runs [k] unless [m] raised. *)
#[global] Instance Result_bind : MBind Result := λ A B f m,
  match m with
  | Return a => f a
  | Raise e => Raise e
  end.
#[global] Instance Result_ret : MRet Result := @Return.
#[global] Instance Result_fmap : FMap Result := λ A B f m,
  match m with
  | Return a => Return (f a)
  | Raise e => Raise e
  end.

(** A value produced by [json.loads]. *)
Unset Elimination Schemes.
Inductive json :=
  | JNull
  | JBool (b : bool)
  | JInt (n : Z)
  | JFloat (bits : N)           (* a float, as its IEEE 754 bit pattern *)
  | JStr (s : pystr)
  | JList (items : list json)
  | JDict (items : list (pystr * json)).   (* in iteration order *)
Set Elimination Schemes.

Definition invalid_input : Exception := HTTPException 400 "Invalid input detected".

(** The interpreter's call stack.  A call of a Python function takes a
    frame, and raises [RecursionError] when none is left under the
    recursion limit.  Building an [HTTPException] runs its [__init__],
    which is Python code of the framework: [exception_frames] is the depth
    of the calls it makes, itself included. *)
Class CallStack := {
  exception_frames : nat
}.

(** [HTTPException.__init__] of FastAPI calls that of Starlette, which
    calls no Python code when given a detail. *)
Definition two_frames : CallStack := {| exception_frames := 2 |}.

(** [for x in l: f(x)]; the first exception ends the loop. *)
Fixpoint for_each {A} (f : A → Result unit) (l : list A) : Result unit :=
  match l with
  | [] => Return tt
  | x :: l' => f x ;; for_each f l'
  end.

Section Guard.
Context `{UnicodeData} `{CallStack}.

Definition nonempty {A} (l : list A) : bool :=
  match l with [] => false | _ => true end.

(** [raise HTTPException(status_code=..., detail=...)] with [frames]
    frames left on the stack. *)
Definition raise_HTTPException {A} (frames : nat) (status_code : nat) (detail : string)
    : Result A :=
  if (frames <? exception_frames)%nat
  then Raise RecursionError
  else Raise (HTTPException status_code detail).

(** [if value and BLOCK_PATTERN.search(value): raise ...], run with stack
    to spare. *)
Definition scan_for_injection (value : pystr) : Result unit :=
  if nonempty value && search BLOCK_PATTERN value
  then Raise invalid_input
  else Return tt.

(** The call [scan_for_injection(value)] with [frames] frames left: one
    is for the call, and the pattern is matched outside the interpreter. *)
Definition scan_for_injection_within (frames : nat) (value : pystr) : Result unit :=
  match frames with
  | O => Raise RecursionError
  | S inner =>
      if nonempty value && search BLOCK_PATTERN value
      then raise_HTTPException inner 400 "Invalid input detected"
      else Return tt
  end.

(** The call [sanitize_payload(obj)] with [frames] frames left.  The walk
    takes the keys and values of a mapping in iteration order, the items
    of a list in order, each nested value in a frame of its own; the
    first exception ends it.  Numbers, booleans and [None] fall
    through. *)
Fixpoint sanitize_payload (frames : nat) (obj : json) : Result unit :=
  match frames with
  | O => Raise RecursionError
  | S inner =>
      match obj with
      | JDict items =>
          for_each (λ '(k, v),
            if str_contains (py "$") k || str_contains (py ".") k
            then raise_HTTPException inner 400 "Invalid input detected"
            else sanitize_payload inner v) items
      | JList items => for_each (sanitize_payload inner) items
      | JStr s => scan_for_injection_within inner s
      | _ => Return tt
      end
  end.
End Guard.

(** ** The middleware *)

(** What the middleware reads of a request: the method, the [content-type]
    header if there is one, and the body as the chunks [receive] hands
    out. *)
Record Request := {
  method : string;
  content_type_header : option string;
  stream : list (list byte)
}.

(** [await request.body()] *)
Definition body (request : Request) : list byte := concat (stream request).

(** [request._receive = receive]: from now on the whole body comes in one
    message. *)
Definition replay (request : Request) (b : list byte) : Request :=
  {| method := method request;
     content_type_header := content_type_header request;
     stream := [b] |}.

(** [p in s] for header strings. *)
Fixpoint substring_of (p s : string) : bool :=
  String.prefix p s ||
  match s with
  | EmptyString => false
  | String _ s' => substring_of p s'
  end.

(** [json.loads(body.decode("utf-8"))]; [None] when either step raises.
    Nothing parses from the empty text. *)
Class JsonParser := {
  loads_utf8 : list byte → option json;
  loads_utf8_empty : loads_utf8 [] = None
}.

Section Middleware.
Context `{UnicodeData} `{CallStack} `{JsonParser}.

Definition guarded (request : Request) : bool :=
  bool_decide (method request ∈ ["POST"; "PUT"; "PATCH"]%string) &&
  substring_of "application/json" (default ""%string (content_type_header request)).

(** [call_next] stands for the rest of the application; the result is
    either what it answers or the exception raised before calling it.
    [frames] is the number of frames left on the stack where the
    middleware calls [sanitize_payload].  An [HTTPException] of
    [sanitize_payload] is raised again; what else the parse or the walk
    raises, [RecursionError] included, is passed over. *)
Definition injection_protection_middleware {A} (frames : nat)
    (request : Request) (call_next : Request → A) : Result A :=
  if guarded request then
    let body := body request in
    if nonempty body then
      let request := replay request body in
      match loads_utf8 body with
      | Some payload =>
          match sanitize_payload frames payload with
          | Raise (HTTPException status_code detail) =>
              Raise (HTTPException status_code detail)   (* except HTTPException: raise *)
          | _ => Return (call_next request)              (* except Exception: pass *)
          end
      | None => Return (call_next request)               (* except Exception: pass *)
      end
    else Return (call_next request)
  else Return (call_next request).
End Middleware.

(** ** Identifiers ([bson.ObjectId])

    An ObjectId the driver generates is 12 bytes; [str] writes the bytes
    of an ObjectId as lowercase hexadecimal digits, two a byte.
    [ObjectId(s)] takes a [str] of 24 characters that [bytes.fromhex]
    reads: 24 hexadecimal digits (either case) give 12 bytes, and
    whitespace among the 24 characters gives fewer. *)

Abbreviation ObjectId := (list byte).

Definition hex_digit (n : N) : char := if n <? 10 then 48 + n else 87 + n.

Definition hex_byte (b : byte) : pystr :=
  [hex_digit (Byte.to_N b / 16); hex_digit (Byte.to_N b mod 16)].

(** [str(o)] *)
Definition ObjectId_str (o : ObjectId) : pystr := mbind hex_byte o.

Definition unhex (c : char) : option N :=
  if between 48 57 c then Some (c - 48)
  else if between 97 102 c then Some (c - 87)
  else if between 65 70 c then Some (c - 55)
  else None.

(** ASCII whitespace: tab, LF, VT, FF, CR and the space. *)
Definition is_ascii_space (c : char) : bool := between 9 13 c || (c =? 32).

(** [bytes.fromhex(s)]: two hexadecimal digits a byte, ASCII whitespace
    skipped before each byte and at the end, not between the two digits
    of a byte; [None] for [ValueError]. *)
Fixpoint fromhex (s : pystr) : option (list byte) :=
  match s with
  | [] => Some []
  | c :: s' =>
      if is_ascii_space c then fromhex s'
      else match s' with
           | [] => None
           | lo :: s'' =>
               h ← unhex c; l ← unhex lo; b ← Byte.of_N (16 * h + l);
               bs ← fromhex s''; Some (b :: bs)
           end
  end.

(** [ObjectId(s)] for a [str]: [len(s) == 24], then [bytes.fromhex(s)];
    [None] for [InvalidId]. *)
Definition ObjectId_of_str (s : pystr) : option ObjectId :=
  if bool_decide (length s = 24%nat) then fromhex s else None.

Definition oid (id_str : pystr) : Result ObjectId :=
  match ObjectId_of_str id_str with
  | Some o => Return o
  | None => Raise (HTTPException 400 "Invalid id format")
  end.

(** ** Documents and collections (MongoDB)

    A collection is the list of its documents in natural order.  The
    driver encodes a document in BSON before it sends it, and raises
    [OverflowError] on an integer beyond 64 bits; a [str] is taken well
    formed, as the framework decodes it.  A query by [_id] matches the
    documents whose [_id] is the same sequence of bytes; how the driver
    writes an ObjectId of fewer than 12 bytes in a query is outside this
    model. *)

#[global] Instance byte_eq_decision : EqDecision byte := byte_eq_dec.

(** The field values this program stores. *)
Inductive value :=
  | VNone
  | VInt (n : Z)
  | VStr (s : pystr)
  | VBytes (b : list byte)
  | VObjectId (o : ObjectId)
  | VDatetime (ms : Z).        (* milliseconds since the epoch, as BSON keeps dates *)

#[global] Instance value_eq_decision : EqDecision value.
Proof. solve_decision. Defined.

(** A stored document: its [_id], which the driver generates as an
    ObjectId for every document this program inserts, and its other
    fields. *)
Record Document := {
  _id : ObjectId;
  fields : gmap string value
}.

Abbreviation Collection := (list Document).   (* in natural order *)

Definition doc_get (d : Document) (k : string) : option value :=
  if decide (k = "_id"%string) then Some (VObjectId (_id d)) else fields d !! k.

(** A query document of equality conditions, [{k1: v1, k2: v2}]. *)
Abbreviation Query := (list (string * value)).

Definition matches (q : Query) (d : Document) : bool :=
  forallb (λ '(k, v), bool_decide (doc_get d k = Some v)) q.

(** [collection.find_one(q)] *)
Definition find_one (c : Collection) (q : Query) : option Document :=
  head (filter (λ d, matches q d = true) c).

(** An [int] BSON encodes: 64 bits, signed. *)
Definition fits_int64 (n : Z) : bool :=
  ((-9223372036854775808 <=? n) && (n <=? 9223372036854775807))%Z.

Definition encodable (v : value) : bool :=
  match v with
  | VInt n => fits_int64 n
  | _ => true
  end.

(** The driver can encode the fields of a document. *)
Definition bson_encodable (doc : gmap string value) : bool :=
  bool_decide (map_Forall (λ _ v, encodable v = true) doc).

(** [collection.insert_one(doc)] for a [doc] without [_id]: the driver
    gives it [new_id] and encodes it; the server refuses an [_id] it
    already holds. *)
Definition insert_one (c : Collection) (doc : gmap string value) (new_id : ObjectId)
    : Result ObjectId * Collection :=
  if negb (bson_encodable doc)
  then (Raise OverflowError, c)
  else if bool_decide (new_id ∈ _id <$> c)
  then (Raise DuplicateKeyError, c)
  else (Return new_id, c ++ [{| _id := new_id; fields := doc |}]).

(** What the server does of [{"$set": new}] under the query [q]: the
    first match gets the fields of [new], its other fields stay; with the
    number of documents matched. *)
Fixpoint update_first (c : Collection) (q : Query) (new : gmap string value)
    : nat * Collection :=
  match c with
  | [] => (0%nat, [])
  | d :: c' =>
      if matches q d
      then (1%nat, {| _id := _id d; fields := new ∪ fields d |} :: c')
      else let '(n, c'') := update_first c' q new in (n, d :: c'')
  end.

(** [collection.update_one(q, {"$set": new})]: the driver encodes [new],
    the server updates; returns [matched_count]. *)
Definition update_one (c : Collection) (q : Query) (new : gmap string value)
    : Result nat * Collection :=
  if negb (bson_encodable new)
  then (Raise OverflowError, c)
  else let '(matched_count, c') := update_first c q new in (Return matched_count, c').

(** [collection.delete_one(q)]; returns [deleted_count]. *)
Fixpoint delete_one (c : Collection) (q : Query) : nat * Collection :=
  match c with
  | [] => (0%nat, [])
  | d :: c' =>
      if matches q d
      then (1%nat, c')
      else let '(n, c'') := delete_one c' q in (n, d :: c'')
  end.

(** [collection.find().to_list(n)] *)
Definition find_to_list (c : Collection) (n : nat) : list Document := take n c.

(** The date in field [k], if it holds one. *)
Definition date_of (k : string) (d : Document) : option Z :=
  match doc_get d k with
  | Some (VDatetime t) => Some t
  | _ => None
  end.

(** Dates in their order, a document without one below them all. *)
Definition date_lt (a b : option Z) : bool :=
  match a, b with
  | _, None => false
  | None, Some _ => true
  | Some x, Some y => bool_decide (x < y)%Z
  end.

(** One step of the scan for the latest date: [d] replaces the best so
    far when its date is strictly later. *)
Definition keep_latest (k : string) (best : option Document) (d : Document)
    : option Document :=
  match best with
  | None => Some d
  | Some b => if date_lt (date_of k b) (date_of k d) then Some d else Some b
  end.

(** [collection.find_one(q, sort=[(k, -1)])]: a match with the greatest
    date in [k].  Among equal dates the server may return any; here it is
    the first in natural order. *)
Definition find_one_latest (c : Collection) (q : Query) (k : string) : option Document :=
  foldl (keep_latest k) None (filter (λ d, matches q d = true) c).

(** The database [leeMuscatDB]. *)
Record DB := {
  events : Collection;
  attendees : Collection;
  venues : Collection;
  booking : Collection;
  media : Collection
}.

Definition set_events (c : Collection) (db : DB) : DB :=
  {| events := c; attendees := attendees db; venues := venues db;
     booking := booking db; media := media db |}.
Definition set_attendees (c : Collection) (db : DB) : DB :=
  {| events := events db; attendees := c; venues := venues db;
     booking := booking db; media := media db |}.
Definition set_venues (c : Collection) (db : DB) : DB :=
  {| events := events db; attendees := attendees db; venues := c;
     booking := booking db; media := media db |}.
Definition set_booking (c : Collection) (db : DB) : DB :=
  {| events := events db; attendees := attendees db; venues := venues db;
     booking := c; media := media db |}.
Definition set_media (c : Collection) (db : DB) : DB :=
  {| events := events db; attendees := attendees db; venues := venues db;
     booking := booking db; media := c |}.

(** ** The document normaliser and the lookup shared by the handlers *)

(** A JSON object of a response. *)
Abbreviation ExternalDoc := (gmap string value).

(** [doc["_id"] = str(doc["_id"])] *)
Definition to_json (doc : Document) : ExternalDoc :=
  <["_id"%string := VStr (ObjectId_str (_id doc))]> (fields doc).

Definition get_or_404 (collection : Collection) (id_str : pystr) : Result Document :=
  o ← oid id_str;
  match find_one collection [("_id"%string, VObjectId o)] with
  | Some doc => Return doc
  | None => Raise (HTTPException 404 "Not found")
  end.

(** ** The entity schemas *)

Local Open Scope string_scope.

(** [model_dump()] of a [BaseModel]. *)
Class BaseModel (M : Type) := model_dump : M → gmap string value.

Module Event.
Record t := {
  name : pystr;
  description : pystr;
  date : pystr;
  venue_id : pystr;
  max_attendees : Z
}.
End Event.

Module Attendee.
Record t := {
  name : pystr;
  email : pystr;
  phone : option pystr
}.
End Attendee.

Module Venue.
Record t := {
  name : pystr;
  address : pystr;
  capacity : Z
}.
End Venue.

Module Booking.
Record t := {
  event_id : pystr;
  attendee_id : pystr;
  ticket_type : pystr;
  quantity : Z
}.
End Booking.

Definition opt_str (o : option pystr) : value :=
  match o with Some s => VStr s | None => VNone end.

#[global] Instance Event_model : BaseModel Event.t := λ e,
  {[ "name" := VStr (Event.name e);
     "description" := VStr (Event.description e);
     "date" := VStr (Event.date e);
     "venue_id" := VStr (Event.venue_id e);
     "max_attendees" := VInt (Event.max_attendees e) ]}.

#[global] Instance Attendee_model : BaseModel Attendee.t := λ a,
  {[ "name" := VStr (Attendee.name a);
     "email" := VStr (Attendee.email a);
     "phone" := opt_str (Attendee.phone a) ]}.

#[global] Instance Venue_model : BaseModel Venue.t := λ v,
  {[ "name" := VStr (Venue.name v);
     "address" := VStr (Venue.address v);
     "capacity" := VInt (Venue.capacity v) ]}.

#[global] Instance Booking_model : BaseModel Booking.t := λ b,
  {[ "event_id" := VStr (Booking.event_id b);
     "attendee_id" := VStr (Booking.attendee_id b);
     "ticket_type" := VStr (Booking.ticket_type b);
     "quantity" := VInt (Booking.quantity b) ]}.

(** ** The entity handlers

    A handler that writes takes the database and returns it with its
    answer; [new_id] is the ObjectId the driver generates for the insert. *)

Definition created (message : string) (r : Result ObjectId) : Result ExternalDoc :=
  inserted_id ← r;
  Return {[ "message" := VStr (py message); "id" := VStr (ObjectId_str inserted_id) ]}.

Definition message_or_404 (count : nat) (message detail : string) : Result ExternalDoc :=
  if bool_decide (count = 0%nat)
  then Raise (HTTPException 404 detail)
  else Return {[ "message" := VStr (py message) ]}.

Definition by_id (o : ObjectId) : Query := [("_id", VObjectId o)].

(** *** /events *)

Definition create_event (event : Event.t) (new_id : ObjectId) (db : DB)
    : Result ExternalDoc * DB :=
  let '(result, c) := insert_one (events db) (model_dump event) new_id in
  (created "Event created" result, set_events c db).

Definition list_events (db : DB) : list ExternalDoc :=
  let docs := find_to_list (events db) 100 in
  to_json <$> docs.

Definition get_event (event_id : pystr) (db : DB) : Result ExternalDoc :=
  doc ← get_or_404 (events db) event_id;
  Return (to_json doc).

Definition update_event (event_id : pystr) (event : Event.t) (db : DB)
    : Result ExternalDoc * DB :=
  match oid event_id with
  | Raise e => (Raise e, db)
  | Return o =>
      let '(result, c) := update_one (events db) (by_id o) (model_dump event) in
      (matched_count ← result;
       message_or_404 matched_count "Event updated" "Event not found", set_events c db)
  end.

Definition delete_event (event_id : pystr) (db : DB) : Result ExternalDoc * DB :=
  match oid event_id with
  | Raise e => (Raise e, db)
  | Return o =>
      let '(deleted_count, c) := delete_one (events db) (by_id o) in
      (message_or_404 deleted_count "Event deleted" "Event not found", set_events c db)
  end.

(** *** /attendees *)

Definition create_attendee (attendee : Attendee.t) (new_id : ObjectId) (db : DB)
    : Result ExternalDoc * DB :=
  let '(result, c) := insert_one (attendees db) (model_dump attendee) new_id in
  (created "Attendee created" result, set_attendees c db).

Definition list_attendees (db : DB) : list ExternalDoc :=
  let docs := find_to_list (attendees db) 100 in
  to_json <$> docs.

Definition get_attendee (attendee_id : pystr) (db : DB) : Result ExternalDoc :=
  doc ← get_or_404 (attendees db) attendee_id;
  Return (to_json doc).

Definition update_attendee (attendee_id : pystr) (attendee : Attendee.t) (db : DB)
    : Result ExternalDoc * DB :=
  match oid attendee_id with
  | Raise e => (Raise e, db)
  | Return o =>
      let '(result, c) := update_one (attendees db) (by_id o) (model_dump attendee) in
      (matched_count ← result;
       message_or_404 matched_count "Attendee updated" "Attendee not found",
       set_attendees c db)
  end.

Definition delete_attendee (attendee_id : pystr) (db : DB) : Result ExternalDoc * DB :=
  match oid attendee_id with
  | Raise e => (Raise e, db)
  | Return o =>
      let '(deleted_count, c) := delete_one (attendees db) (by_id o) in
      (message_or_404 deleted_count "Attendee deleted" "Attendee not found",
       set_attendees c db)
  end.

(** *** /venues *)

Definition create_venue (venue : Venue.t) (new_id : ObjectId) (db : DB)
    : Result ExternalDoc * DB :=
  let '(result, c) := insert_one (venues db) (model_dump venue) new_id in
  (created "Venue created" result, set_venues c db).

Definition list_venues (db : DB) : list ExternalDoc :=
  let docs := find_to_list (venues db) 100 in
  to_json <$> docs.

Definition get_venue (venue_id : pystr) (db : DB) : Result ExternalDoc :=
  doc ← get_or_404 (venues db) venue_id;
  Return (to_json doc).

Definition update_venue (venue_id : pystr) (venue : Venue.t) (db : DB)
    : Result ExternalDoc * DB :=
  match oid venue_id with
  | Raise e => (Raise e, db)
  | Return o =>
      let '(result, c) := update_one (venues db) (by_id o) (model_dump venue) in
      (matched_count ← result;
       message_or_404 matched_count "Venue updated" "Venue not found", set_venues c db)
  end.

Definition delete_venue (venue_id : pystr) (db : DB) : Result ExternalDoc * DB :=
  match oid venue_id with
  | Raise e => (Raise e, db)
  | Return o =>
      let '(deleted_count, c) := delete_one (venues db) (by_id o) in
      (message_or_404 deleted_count "Venue deleted" "Venue not found", set_venues c db)
  end.

(** *** /booking *)

Definition create_booking (booking_ : Booking.t) (new_id : ObjectId) (db : DB)
    : Result ExternalDoc * DB :=
  let '(result, c) := insert_one (booking db) (model_dump booking_) new_id in
  (created "Booking created" result, set_booking c db).

Definition list_bookings (db : DB) : list ExternalDoc :=
  let docs := find_to_list (booking db) 100 in
  to_json <$> docs.

Definition get_booking (booking_id : pystr) (db : DB) : Result ExternalDoc :=
  doc ← get_or_404 (booking db) booking_id;
  Return (to_json doc).

Definition update_booking (booking_id : pystr) (booking_ : Booking.t) (db : DB)
    : Result ExternalDoc * DB :=
  match oid booking_id with
  | Raise e => (Raise e, db)
  | Return o =>
      let '(result, c) := update_one (booking db) (by_id o) (model_dump booking_) in
      (matched_count ← result;
       message_or_404 matched_count "Booking updated" "Booking not found",
       set_booking c db)
  end.

Definition delete_booking (booking_id : pystr) (db : DB) : Result ExternalDoc * DB :=
  match oid booking_id with
  | Raise e => (Raise e, db)
  | Return o =>
      let '(deleted_count, c) := delete_one (booking db) (by_id o) in
      (message_or_404 deleted_count "Booking deleted" "Booking not found",
       set_booking c db)
  end.

(** ** The media store *)

(** An uploaded file: its name and declared type, if the client sent
    them, and what [await file.read()] returns. *)
Record UploadFile := {
  filename : option pystr;
  content_type : option pystr;
  file_read : list byte
}.

(** [now] is the reading of [datetime.utcnow()], [new_id] the ObjectId
    the driver generates. *)
Definition upload_media (collection : Collection) (link_field : string)
    (link_id : pystr) (media_type : string) (file : UploadFile)
    (now : Z) (new_id : ObjectId) : Result ExternalDoc * Collection :=
  let content := file_read file in
  let doc : gmap string value :=
    <["uploaded_at" := VDatetime now]>
    (<["content" := VBytes content]>
    (<["content_type" := opt_str (content_type file)]>
    (<["filename" := opt_str (filename file)]>
    (<["media_type" := VStr (py media_type)]>
    (<[link_field := VStr link_id]> ∅))))) in
  let '(result, c) := insert_one collection doc new_id in
  (created "Uploaded" result, c).

(** A [StreamingResponse]: the bytes it streams, its media type, and the
    value written into the header
    [Content-Disposition: inline; filename="..."].  The response keeps
    its headers encoded in latin-1. *)
Record StreamingResponse := {
  streamed : list byte;
  response_media_type : value;
  disposition_filename : value
}.

(** [io.BytesIO(v)] *)
Definition BytesIO (v : value) : Result (list byte) :=
  match v with
  | VBytes b => Return b
  | VNone => Return []
  | _ => Raise TypeError
  end.

(** [doc[k]] on a fetched document. *)
Definition getitem (doc : Document) (k : string) : Result value :=
  match doc_get doc k with
  | Some v => Return v
  | None => Raise (KeyError k)
  end.

(** [s.encode("latin-1")] succeeds. *)
Definition latin1 (s : pystr) : bool := forallb (λ c : char, (c <? 256)%N) s.

(** The header [Content-Disposition], encoded: the f-string writes a
    [str] as it is and any other value in ASCII. *)
Definition encode_disposition (fname : value) : Result unit :=
  match fname with
  | VStr s => if latin1 s then Return tt else Raise UnicodeEncodeError
  | _ => Return tt
  end.

(** The header [content-type] of a response, encoded: none for the media
    type [None]; a [str] is asked whether it starts with [text/], then
    encoded. *)
Definition encode_content_type (media_type : value) : Result unit :=
  match media_type with
  | VNone => Return tt
  | VStr t => if latin1 t then Return tt else Raise UnicodeEncodeError
  | VBytes _ => Raise TypeError
  | _ => Raise AttributeError
  end.

(** [StreamingResponse(io.BytesIO(doc["content"]),
    media_type=doc["content_type"], headers={...doc["filename"]...})]:
    the arguments in their order, then the headers given, then the
    content type. *)
Definition streaming_response (doc : Document) : Result StreamingResponse :=
  content ← getitem doc "content";
  stream ← BytesIO content;
  ctype ← getitem doc "content_type";
  fname ← getitem doc "filename";
  encode_disposition fname ;;
  encode_content_type ctype ;;
  Return {| streamed := stream; response_media_type := ctype;
            disposition_filename := fname |}.

Definition stream_latest_media (collection : Collection) (link_field : string)
    (link_id : pystr) (media_type : string) : Result StreamingResponse :=
  match find_one_latest collection
          [(link_field, VStr link_id); ("media_type", VStr (py media_type))]
          "uploaded_at" with
  | None => Raise (HTTPException 404 "No media found")
  | Some doc => streaming_response doc
  end.

(** [not file.content_type or not file.content_type.startswith(prefix)] *)
Definition wrong_type (file : UploadFile) (prefix : string) : bool :=
  match content_type file with
  | None => true
  | Some t => negb (nonempty t) || negb (startswith t (py prefix))
  end.

Definition upload_event_poster (event_id : pystr) (file : UploadFile)
    (now : Z) (new_id : ObjectId) (db : DB) : Result ExternalDoc * DB :=
  if wrong_type file "image/"
  then (Raise (HTTPException 400 "Poster must be an image"), db)
  else let '(r, c) := upload_media (media db) "event_id" event_id "event_poster"
                        file now new_id in
       (r, set_media c db).

Definition upload_promo_video (event_id : pystr) (file : UploadFile)
    (now : Z) (new_id : ObjectId) (db : DB) : Result ExternalDoc * DB :=
  if wrong_type file "video/"
  then (Raise (HTTPException 400 "Promo must be a video"), db)
  else let '(r, c) := upload_media (media db) "event_id" event_id "promo_video"
                        file now new_id in
       (r, set_media c db).

Definition upload_venue_photo (venue_id : pystr) (file : UploadFile)
    (now : Z) (new_id : ObjectId) (db : DB) : Result ExternalDoc * DB :=
  if wrong_type file "image/"
  then (Raise (HTTPException 400 "Venue photo must be an image"), db)
  else let '(r, c) := upload_media (media db) "venue_id" venue_id "venue_photo"
                        file now new_id in
       (r, set_media c db).

Definition get_event_poster (event_id : pystr) (db : DB) : Result StreamingResponse :=
  stream_latest_media (media db) "event_id" event_id "event_poster".

Definition get_promo_video (event_id : pystr) (db : DB) : Result StreamingResponse :=
  stream_latest_media (media db) "event_id" event_id "promo_video".

Definition get_venue_photo (venue_id : pystr) (db : DB) : Result StreamingResponse :=
  stream_latest_media (media db) "venue_id" venue_id "venue_photo".

(** ** Vocabulary of the statements *)

Local Close Scope string_scope.

(** *** What a parsed payload contains *)

(** The string values of a payload, at any depth. *)
Fixpoint strings_of (j : json) : list pystr :=
  match j with
  | JStr s => [s]
  | JList l => flat_map strings_of l
  | JDict l => flat_map (λ kv, strings_of kv.2) l
  | _ => []
  end.

(** The mapping keys of a payload, at any depth. *)
Fixpoint keys_of (j : json) : list pystr :=
  match j with
  | JList l => flat_map keys_of l
  | JDict l => flat_map (λ kv, kv.1 :: keys_of kv.2) l
  | _ => []
  end.

(** ["$" in k or "." in k] *)
Definition reserved_key (k : pystr) : bool :=
  str_contains (py "$") k || str_contains (py ".") k.

(** The frames the walk of a payload takes where it goes deepest: one a
    level of nesting, and one more for the scan of a string. *)
Fixpoint frames_needed (j : json) : nat :=
  match j with
  | JStr _ => 2
  | JList l => S (max_list (frames_needed <$> l))
  | JDict l => S (max_list ((λ kv, frames_needed kv.2) <$> l))
  | _ => 1
  end.

(** *** The blacklist, as the specification words it

    The characters [$ { } [ ] ;], the marks [--], [/*] and [*/], and the
    word OR or AND in any case, followed by whitespace and a comparison
    digit=digit. *)

Definition special_chars : pystr := py "${}[];".
Definition comment_marks : list pystr := [py "--"; py "/*"; py "*/"].
Definition keyword (tok : pystr) : Prop :=
  lower <$> tok = py "or" ∨ lower <$> tok = py "and".

(** The continuation that accepts: the match may end anywhere. *)
Definition ktrue : option char → pystr → bool := λ _ _, true.

(** The character before a position, [prev] at the start. *)
Definition last_or (prev : option char) (pre : pystr) : option char :=
  match last pre with Some c => Some c | None => prev end.

Section Blacklist.
Context `{UnicodeData}.

(** One of the blacklisted forms starts at a position of the subject,
    [prev] being the character before it.  The keyword stands as a word
    of its own: no word character before it or right after it. *)
Definition blacklisted_at (prev : option char) (post : pystr) : Prop :=
  (∃ c rest, c ∈ special_chars ∧ post = c :: rest) ∨
  (∃ m rest, m ∈ comment_marks ∧ post = m ++ rest) ∨
  (∃ tok ws d1 d2 rest,
      keyword tok ∧ post = tok ++ ws ++ d1 :: 61 :: d2 :: rest ∧
      ws ≠ [] ∧ Forall (λ c, is_space c = true) ws ∧
      is_digit d1 = true ∧ is_digit d2 = true ∧
      opt_word prev = false ∧ opt_word (head ws) = false).

Definition blacklisted (s : pystr) : Prop :=
  ∃ pre post, s = pre ++ post ∧ blacklisted_at (last pre) post.

(** No key holds [$] or [.], no string value is blacklisted. *)
Definition benign (payload : json) : Prop :=
  (∀ k, k ∈ keys_of payload → (36 ∉ k) ∧ (46 ∉ k)) ∧
  (∀ s, s ∈ strings_of payload → ¬ blacklisted s).

(** What [sanitize_payload] lets through, as a truth value. *)
Definition clean (payload : json) : bool :=
  forallb (λ k, negb (reserved_key k)) (keys_of payload) &&
  forallb (λ s, negb (search BLOCK_PATTERN s)) (strings_of payload).
End Blacklist.

(** The request reaches the rest of the application, which reads the same
    method, header and body from it. *)
Definition forwarded {A} (request : Request) (call_next : Request → A)
    (answer : Result A) : Prop :=
  ∃ request', answer = Return (call_next request') ∧
              method request' = method request ∧
              content_type_header request' = content_type_header request ∧
              body request' = body request.

(** *** Identifiers *)

Definition hex_chars : pystr := py "0123456789abcdefABCDEF".

(** A 24-character hexadecimal identifier. *)
Definition well_formed_id (s : pystr) : Prop :=
  length s = 24%nat ∧ Forall (λ c, c ∈ hex_chars) s.

(** Tab, LF, VT, FF, CR and the space. *)
Definition ascii_whitespace : pystr := [9; 10; 11; 12; 13; 32].

(** Pairs of hexadecimal digits, with whitespace before, between or
    after the pairs. *)
Inductive hex_pairs : pystr → Prop :=
  | hex_pairs_nil : hex_pairs []
  | hex_pairs_space (c : char) (s : pystr) :
      c ∈ ascii_whitespace → hex_pairs s → hex_pairs (c :: s)
  | hex_pairs_pair (hi lo : char) (s : pystr) :
      hi ∈ hex_chars → lo ∈ hex_chars → hex_pairs s → hex_pairs (hi :: lo :: s).

(** The strings [ObjectId] takes: 24 characters that are hexadecimal
    pairs and whitespace. *)
Definition accepted_id (s : pystr) : Prop :=
  length s = 24%nat ∧ hex_pairs s.

(** *** The routes, by collection *)

Inductive Entity := Events | Attendees | Venues | Bookings.

Definition Model (E : Entity) : Type :=
  match E with
  | Events => Event.t
  | Attendees => Attendee.t
  | Venues => Venue.t
  | Bookings => Booking.t
  end.

Definition dump {E : Entity} : Model E → gmap string value :=
  match E with
  | Events => model_dump
  | Attendees => model_dump
  | Venues => model_dump
  | Bookings => model_dump
  end.

Definition collection_of (E : Entity) (db : DB) : Collection :=
  match E with
  | Events => events db
  | Attendees => attendees db
  | Venues => venues db
  | Bookings => booking db
  end.

Definition set_collection (E : Entity) (c : Collection) (db : DB) : DB :=
  match E with
  | Events => set_events c db
  | Attendees => set_attendees c db
  | Venues => set_venues c db
  | Bookings => set_booking c db
  end.

Definition create (E : Entity) : Model E → ObjectId → DB → Result ExternalDoc * DB :=
  match E with
  | Events => create_event
  | Attendees => create_attendee
  | Venues => create_venue
  | Bookings => create_booking
  end.

Definition list_all (E : Entity) : DB → list ExternalDoc :=
  match E with
  | Events => list_events
  | Attendees => list_attendees
  | Venues => list_venues
  | Bookings => list_bookings
  end.

Definition get (E : Entity) : pystr → DB → Result ExternalDoc :=
  match E with
  | Events => get_event
  | Attendees => get_attendee
  | Venues => get_venue
  | Bookings => get_booking
  end.

Definition update (E : Entity) : pystr → Model E → DB → Result ExternalDoc * DB :=
  match E with
  | Events => update_event
  | Attendees => update_attendee
  | Venues => update_venue
  | Bookings => update_booking
  end.

Definition delete (E : Entity) : pystr → DB → Result ExternalDoc * DB :=
  match E with
  | Events => delete_event
  | Attendees => delete_attendee
  | Venues => delete_venue
  | Bookings => delete_booking
  end.

Definition label (E : Entity) : string :=
  match E with
  | Events => "Event"
  | Attendees => "Attendee"
  | Venues => "Venue"
  | Bookings => "Booking"
  end.

Definition message (text : string) : ExternalDoc := {[ "message"%string := VStr (py text) ]}.

(** The ids a collection holds; the server keeps them distinct. *)
Definition ids (c : Collection) : list ObjectId := _id <$> c.
Definition unique_ids (c : Collection) : Prop := NoDup (ids c).

(** *** The media routes, by category *)

Inductive Category := EventPoster | PromoVideo | VenuePhoto.

Definition upload (cat : Category)
    : pystr → UploadFile → Z → ObjectId → DB → Result ExternalDoc * DB :=
  match cat with
  | EventPoster => upload_event_poster
  | PromoVideo => upload_promo_video
  | VenuePhoto => upload_venue_photo
  end.

Definition latest (cat : Category) : pystr → DB → Result StreamingResponse :=
  match cat with
  | EventPoster => get_event_poster
  | PromoVideo => get_promo_video
  | VenuePhoto => get_venue_photo
  end.

Definition link_field_of (cat : Category) : string :=
  match cat with
  | EventPoster | PromoVideo => "event_id"
  | VenuePhoto => "venue_id"
  end.

Definition media_type_of (cat : Category) : string :=
  match cat with
  | EventPoster => "event_poster"
  | PromoVideo => "promo_video"
  | VenuePhoto => "venue_photo"
  end.

Definition mime_prefix (cat : Category) : string :=
  match cat with
  | EventPoster | VenuePhoto => "image/"
  | PromoVideo => "video/"
  end.

(** The attachments of an owner in a category. *)
Definition attachment_query (cat : Category) (owner_id : pystr) : Query :=
  [(link_field_of cat, VStr owner_id); ("media_type"%string, VStr (py (media_type_of cat)))].

Definition attachments (cat : Category) (owner_id : pystr) (db : DB) : list Document :=
  filter (λ d, matches (attachment_query cat owner_id) d = true) (media db).

(** The document [upload_media] stores. *)
Definition media_doc (cat : Category) (owner_id : pystr) (file : UploadFile)
    (now : Z) : gmap string value :=
  <["uploaded_at"%string := VDatetime now]>
  (<["content"%string := VBytes (file_read file)]>
  (<["content_type"%string := opt_str (content_type file)]>
  (<["filename"%string := opt_str (filename file)]>
  (<["media_type"%string := VStr (py (media_type_of cat))]>
  (<[link_field_of cat := VStr owner_id]> ∅))))).

Definition uploaded_at (d : Document) : option Z := date_of "uploaded_at" d.

(** The name and the declared type of a file can be written in latin-1,
    as the headers of a response are. *)
Definition latin1_headers (file : UploadFile) : bool :=
  latin1 (default [] (filename file)) && latin1 (default [] (content_type file)).

(** What the latest retrieval answers when it serves an upload. *)
Definition served (file : UploadFile) : StreamingResponse :=
  {| streamed := file_read file;
     response_media_type := opt_str (content_type file);
     disposition_filename := opt_str (filename file) |}.

(** ** Example data *)

(** ASCII text as the bytes of a body; [dq] is the double quote. *)
Definition utf8 (s : string) : list byte := list_byte_of_string s.
Definition dq : string := String "034"%char EmptyString.

(** [{"name": "Summer Fest"}] *)
Definition body_benign : list byte :=
  utf8 ("{" +:+ dq +:+ "name" +:+ dq +:+ ": " +:+ dq +:+ "Summer Fest" +:+ dq +:+ "}").

(** [{"a;b": 1}] *)
Definition body_key_semicolon : list byte :=
  utf8 ("{" +:+ dq +:+ "a;b" +:+ dq +:+ ": 1}").

(** [{"filter": [{"a.b": 1}]}] *)
Definition body_key_dot : list byte :=
  utf8 ("{" +:+ dq +:+ "filter" +:+ dq +:+ ": [{" +:+ dq +:+ "a.b" +:+ dq +:+ ": 1}]}").

(** [{"tags": ["a", {"note": "x' OR 1=1"}]}] *)
Definition body_nested_string : list byte :=
  utf8 ("{" +:+ dq +:+ "tags" +:+ dq +:+ ": [" +:+ dq +:+ "a" +:+ dq +:+ ", {"
        +:+ dq +:+ "note" +:+ dq +:+ ": " +:+ dq +:+ "x' OR 1=1" +:+ dq +:+ "}]}").

(** [inner] within [n] pairs of brackets: [[[...inner...]]] *)
Definition nested_body (n : nat) (inner : string) : list byte :=
  repeat x5b n ++ utf8 inner ++ repeat x5d n.

(** [[[...{"a.b": 1}...]]], a thousand lists deep. *)
Definition body_deep_key : list byte :=
  nested_body 1000 ("{" +:+ dq +:+ "a.b" +:+ dq +:+ ": 1}").

(** [[[..."a;b"...]]], a thousand lists deep. *)
Definition body_deep_string : list byte :=
  nested_body 1000 (dq +:+ "a;b" +:+ dq).

(** [inner] within [n] lists of one item. *)
Definition nested (n : nat) (inner : json) : json :=
  Nat.iter n (λ j, JList [j]) inner.

Definition payload_deep_key : json := nested 1000 (JDict [(py "a.b", JInt 1)]).
Definition payload_deep_string : json := nested 1000 (JStr (py "a;b")).

Definition payload_benign : json := JDict [(py "name", JStr (py "Summer Fest"))].
Definition payload_key_semicolon : json := JDict [(py "a;b", JInt 1)].
Definition payload_key_dot : json :=
  JDict [(py "filter", JList [JDict [(py "a.b", JInt 1)]])].
Definition payload_nested_string : json :=
  JDict [(py "tags", JList [JStr (py "a"); JDict [(py "note", JStr (py "x' OR 1=1"))]])].

(** A parser that knows the six bodies above, and gives on each what
    [json.loads] gives. *)
Definition example_loads (b : list byte) : option json :=
  if decide (b = body_benign) then Some payload_benign
  else if decide (b = body_key_semicolon) then Some payload_key_semicolon
  else if decide (b = body_key_dot) then Some payload_key_dot
  else if decide (b = body_nested_string) then Some payload_nested_string
  else if decide (b = body_deep_key) then Some payload_deep_key
  else if decide (b = body_deep_string) then Some payload_deep_string
  else None.

Definition example_parser : JsonParser :=
  {| loads_utf8 := example_loads; loads_utf8_empty := eq_refl |}.

(** A tab and a file separator, in string literals. *)
Definition tab : string := String "009"%char EmptyString.
Definition fs : string := String "028"%char EmptyString.

Definition post_json (b : list byte) : Request :=
  {| method := "POST"; content_type_header := Some "application/json"%string;
     stream := [b] |}.

Definition empty_db : DB :=
  {| events := []; attendees := []; venues := []; booking := []; media := [] |}.

Definition summer_fest : Event.t :=
  {| Event.name := py "Summer Fest"; Event.description := py "Open air";
     Event.date := py "2025-07-01"; Event.venue_id := py "v1";
     Event.max_attendees := 200 |}.

Definition winter_ball : Event.t :=
  {| Event.name := py "Winter Ball"; Event.description := py "Indoors";
     Event.date := py "2025-12-20"; Event.venue_id := py "v2";
     Event.max_attendees := 80 |}.

(** An event for 2^63 attendees. *)
Definition crowded_fest : Event.t :=
  {| Event.name := py "Crowded Fest"; Event.description := py "Open air";
     Event.date := py "2025-07-01"; Event.venue_id := py "v1";
     Event.max_attendees := 9223372036854775808 |}.

Definition id_a : ObjectId := [x65; x4f; x1a; x2b; x3c; x4d; x5e; x6f; x70; x81; x92; xa3].
Definition id_b : ObjectId := [x65; x4f; x1a; x2b; x3c; x4d; x5e; x6f; x70; x81; x92; xa4].

(** Eleven bytes. *)
Definition id_short : ObjectId := [x65; x4f; x1a; x2b; x3c; x4d; x5e; x6f; x70; x81; x92].

(** 22 hexadecimal digits and two spaces. *)
Definition spaced_id : pystr := py "654f1a2b3c4d5e6f7081  92".

Definition png (content : list byte) : UploadFile :=
  {| filename := Some (py "poster.png"); content_type := Some (py "image/png");
     file_read := content |}.

(** A poster whose name is two Chinese characters and [.png]. *)
Definition png_haibao (content : list byte) : UploadFile :=
  {| filename := Some ([28023; 25253] ++ py ".png"); content_type := Some (py "image/png");
     file_read := content |}.


(** *** The states the routes lead to *)

(** One write through a route.  The ObjectId the driver generates has 12
    bytes. *)
Inductive step : DB → DB → Prop :=
  | step_create (E : Entity) (e : Model E) (new_id : ObjectId) (db : DB) :
      length new_id = 12%nat → step db (create E e new_id db).2
  | step_update (E : Entity) (id_str : pystr) (e : Model E) (db : DB) :
      step db (update E id_str e db).2
  | step_delete (E : Entity) (id_str : pystr) (db : DB) :
      step db (delete E id_str db).2
  | step_upload (cat : Category) (owner_id : pystr) (file : UploadFile)
      (now : Z) (new_id : ObjectId) (db : DB) :
      length new_id = 12%nat → step db (upload cat owner_id file now new_id db).2.

(** The databases the routes build from the empty one. *)
Inductive reachable : DB → Prop :=
  | reachable_empty : reachable empty_db
  | reachable_step (db db' : DB) : reachable db → step db db' → reachable db'.

(** The documents of an entity collection hold the fields of an entity of
    that collection; their ids have 12 bytes and are distinct. *)
Definition entities_shaped (E : Entity) (c : Collection) : Prop :=
  unique_ids c ∧
  ∀ d, d ∈ c → length (_id d) = 12%nat ∧ ∃ e : Model E, fields d = dump e.

(** The documents of the media collection are those [upload_media]
    builds; their ids have 12 bytes and are distinct. *)
Definition media_shaped (c : Collection) : Prop :=
  unique_ids c ∧
  ∀ d, d ∈ c → length (_id d) = 12%nat ∧
               ∃ cat owner_id file now, fields d = media_doc cat owner_id file now.

Definition well_shaped (db : DB) : Prop :=
  (∀ E, entities_shaped E (collection_of E db)) ∧ media_shaped (media db).

(** The detail of the HTTP 400 of an upload route. *)
Definition wrong_type_detail (cat : Category) : string :=
  match cat with
  | EventPoster => "Poster must be an image"
  | PromoVideo => "Promo must be a video"
  | VenuePhoto => "Venue photo must be an image"
  end.

(** The characters without which no string is blacklisted. *)
Definition suspicious_chars : pystr := py "${}[];-/*=".

(** * Properties *)

(** ** The model at work

    The pattern on the strings below gives what [re] gives on them. *)

Example search_examples :
  (λ s, @search ascii_only BLOCK_PATTERN (py s)) <$>
    ["Summer Fest"; "x' or  1=1"; "for 1=1"; "OR1=1"; "-OR 1=1"; "_or 1=1";
     "1 AnD" +:+ tab +:+ "2=3x"; "1 OR" +:+ fs +:+ "1=1"; "a;b"; "a-b"; "a--b"; "2*/3"; ""]%string
  = [false; true; false; false; true; false; true; true; true; false; true; true; false].
Proof. vm_compute. reflexivity. Qed.

Example sanitize_examples :
  @sanitize_payload ascii_only two_frames 900 <$>
    [payload_benign; payload_key_semicolon; payload_key_dot; payload_nested_string;
     JList [JNull; JBool true; JInt 7; JFloat 0; JStr []]]
  = [Return (); Return (); Raise invalid_input; Raise invalid_input; Return ()].
Proof. vm_compute. reflexivity. Qed.

(** The walk of [{"tags": ["a", {"note": "x' OR 1=1"}]}] takes five
    frames to reach the string in its scan and two more to build the
    exception. *)
Example sanitize_frames_examples :
  (λ frames, @sanitize_payload ascii_only two_frames frames payload_nested_string) <$>
    [0; 1; 4; 5; 6; 7; 8]%nat
  = [Raise RecursionError; Raise RecursionError; Raise RecursionError;
     Raise RecursionError; Raise RecursionError; Raise invalid_input; Raise invalid_input].
Proof. vm_compute. reflexivity. Qed.

Example guarded_examples :
  guarded <$>
    [post_json body_benign;
     {| method := "PUT"; content_type_header := Some "application/json; charset=utf-8"%string;
        stream := [] |};
     {| method := "GET"; content_type_header := Some "application/json"%string; stream := [] |};
     {| method := "POST"; content_type_header := Some "text/plain"%string; stream := [] |};
     {| method := "PATCH"; content_type_header := None; stream := [] |}]
  = [true; true; false; false; false].
Proof. reflexivity. Qed.

Example oid_examples :
  oid <$> [py "654f1a2b3c4d5e6f708192a3"; py "654F1A2B3C4D5E6F708192A3";
           py "not-a-valid-id"; py "654f1a2b3c4d5e6f708192a"; py "654f1a2b3c4d5e6f708192ag";
           py "654f1a2b3c4d5e6f7081  92"; py "654f1a2b3c4d5e6f70819 2 ";
           py (" 654f1a2b3c4d5e6f708192" +:+ tab); py ("654f1a2b3c4d5e6f7081" +:+ fs +:+ " 92");
           repeat 32 24]
  = [Return id_a; Return id_a;
     Raise (HTTPException 400 "Invalid id format");
     Raise (HTTPException 400 "Invalid id format");
     Raise (HTTPException 400 "Invalid id format");
     Return id_short;
     Raise (HTTPException 400 "Invalid id format");
     Return id_short;
     Raise (HTTPException 400 "Invalid id format");
     Return []].
Proof. vm_compute. reflexivity. Qed.

(** [str] of what 24 spaces decode to is the empty string. *)
Example str_examples :
  ObjectId_str <$> [id_a; id_short; []]
  = [py "654f1a2b3c4d5e6f708192a3"; py "654f1a2b3c4d5e6f708192"; []].
Proof. vm_compute. reflexivity. Qed.

Example fromhex_examples :
  fromhex <$> [repeat 32 24; py "6 5"; py " 65 4f "; py "654"; [54; 233]]
  = [Some []; None; Some [x65; x4f]; None; None].
Proof. vm_compute. reflexivity. Qed.

Example crud_example :
  let db1 := (create_event summer_fest id_a empty_db).2 in
  let db2 := (update_event (ObjectId_str id_a) winter_ball db1).2 in
  let db3 := (delete_event (ObjectId_str id_a) db2).2 in
  list_events db1 = [<["_id"%string := VStr (py "654f1a2b3c4d5e6f708192a3")]> (model_dump summer_fest)] ∧
  list_events db2 = [<["_id"%string := VStr (py "654f1a2b3c4d5e6f708192a3")]> (model_dump winter_ball)] ∧
  list_events db3 = [] ∧
  (create_event winter_ball id_a db1).1 = Raise DuplicateKeyError.
Proof. intros db1 db2 db3. split_and!; vm_compute; reflexivity. Qed.

(** An integer beyond 64 bits: the driver raises, nothing is written. *)
Example overflow_example :
  let db1 := (create_event summer_fest id_a empty_db).2 in
  create_event crowded_fest id_a empty_db = (Raise OverflowError, empty_db) ∧
  update_event (ObjectId_str id_a) crowded_fest db1 = (Raise OverflowError, db1) ∧
  update_event (py "not-a-valid-id") crowded_fest db1
    = (Raise (HTTPException 400 "Invalid id format"), db1).
Proof. intros db1. split_and!; vm_compute; reflexivity. Qed.

Example upload_wrong_type :
  (upload_event_poster (py "e1")
     {| filename := Some (py "notes.txt"); content_type := Some (py "text/plain");
        file_read := [x68; x69] |} 1000 id_a empty_db)
  = (Raise (HTTPException 400 "Poster must be an image"), empty_db).
Proof. reflexivity. Qed.

(** ** The pattern *)

Ltac ncmp :=
  unfold lit_matches, lower, between in *;
  repeat match goal with
  | |- context [?a <=? ?b] => destruct (N.leb_spec a b)
  | |- context [?a <? ?b] => destruct (N.ltb_spec a b)
  | |- context [?a =? ?b] => destruct (N.eqb_spec a b)
  | H : context [?a <=? ?b] |- _ => destruct (N.leb_spec a b)
  | H : context [?a <? ?b] |- _ => destruct (N.ltb_spec a b)
  | H : context [?a =? ?b] |- _ => destruct (N.eqb_spec a b)
  end; cbn in *; try done; try lia.

Section PatternFacts.
Context `{UnicodeData}.

Lemma last_or_cons prev x pre : last_or prev (x :: pre) = last_or (Some x) pre.
Proof.
  unfold last_or. destruct pre as [|y pre]; [done|]. rewrite last_cons_cons.
  destruct (last (y :: pre)) eqn:E; [done|]. by apply last_None in E.
Qed.

Lemma search_from_iff r prev s :
  search_from r prev s = true ↔
  ∃ pre post, s = pre ++ post ∧ match_here r (last_or prev pre) post (λ _ _, true) = true.
Proof.
  revert prev. induction s as [|x s IH]; intros prev; cbn [search_from].
  - rewrite orb_false_r. split.
    + intros Hm. by exists [], [].
    + intros (pre & post & Hs & Hm). symmetry in Hs.
      apply app_eq_nil in Hs as [-> ->]. done.
  - rewrite orb_true_iff, IH. split.
    + intros [Hm|(pre & post & -> & Hm)].
      * by exists [], (x :: s).
      * exists (x :: pre), post. by rewrite last_or_cons.
    + intros (pre & post & Hs & Hm). destruct pre as [|y pre].
      * left. cbn in Hs. by subst.
      * right. cbn in Hs. injection Hs as -> ->. exists pre, post.
        by rewrite <- (last_or_cons prev).
Qed.

Lemma lit_matches_symbol c x :
  between 65 90 c = false → between 97 122 c = false →
  lit_matches c x = true ↔ x = c.
Proof. intros H1 H2. split; [|intros ->]; ncmp. Qed.

Lemma lit_matches_upper c x :
  between 65 90 c = true → lit_matches c x = true ↔ lower x = c + 32.
Proof. intros H1. split; ncmp. Qed.

Lemma lower_letter_word x c :
  between 97 122 c = true → lower x = c → is_word x = true.
Proof. unfold is_word. intros H1 H2. ncmp. Qed.

Lemma plus_space_iff k n p s :
  plus_loop (match_here Space) k n p s = true ↔
  ∃ ws rest, s = ws ++ rest ∧ ws ≠ [] ∧ (length ws ≤ n)%nat ∧
             Forall (λ c, is_space c = true) ws ∧ k (last ws) rest = true.
Proof.
  revert p s. induction n as [|n IH]; intros p s; cbn [plus_loop match_here].
  - split; [done|]. intros (ws & rest & _ & Hne & Hlen & _). destruct ws; [done|cbn in Hlen; lia].
  - destruct s as [|x s].
    + split; [done|]. intros (ws & rest & Hs & Hne & _). by destruct ws.
    + rewrite andb_true_iff, orb_true_iff, IH. split.
      * intros [Hx [Hk|(ws & rest & -> & Hne & Hlen & Hws & Hk)]].
        -- exists [x], s. repeat split; auto; cbn; lia.
        -- exists (x :: ws), rest. repeat split; auto; [cbn; lia|].
           destruct ws; [done|]. by rewrite last_cons_cons.
      * intros (ws & rest & Hs & Hne & Hlen & Hws & Hk).
        destruct ws as [|y ws]; [done|]. cbn in Hs. injection Hs as -> ->.
        apply Forall_cons in Hws as [Hy Hws]. split; [done|].
        destruct ws as [|z ws].
        -- left. done.
        -- right. exists (z :: ws), rest. rewrite last_cons_cons in Hk.
           repeat split; auto. cbn in *; lia.
Qed.

Lemma comparison_here p s :
  match_here (Seq (Plus Space) (Seq Digit (Seq (Lit 61) Digit))) p s ktrue = true ↔
  ∃ ws d1 d2 rest, s = ws ++ d1 :: 61 :: d2 :: rest ∧ ws ≠ [] ∧
     Forall (λ c, is_space c = true) ws ∧ is_digit d1 = true ∧ is_digit d2 = true.
Proof.
  cbn [match_here]. rewrite plus_space_iff. split.
  - intros (ws & rest & -> & Hne & _ & Hws & Hk).
    destruct rest as [|d1 [|e [|d2 rest]]]; cbn [match_here] in Hk;
      rewrite ?andb_false_r in Hk; try done.
    apply andb_true_iff in Hk as [Hd1 Hk].
    apply andb_true_iff in Hk as [He Hk].
    apply andb_true_iff in Hk as [Hd2 _].
    apply lit_matches_symbol in He as ->; [|done..]. eauto 10.
  - intros (ws & d1 & d2 & rest & -> & Hne & Hws & Hd1 & Hd2).
    exists ws, (d1 :: 61 :: d2 :: rest). split_and!; auto.
    + rewrite length_app. lia.
    + cbn [match_here]. by rewrite Hd1, Hd2.
Qed.

Lemma keyword_inv tok :
  keyword tok ↔
  (∃ a b, tok = [a; b] ∧ lower a = 111 ∧ lower b = 114) ∨
  (∃ a b c, tok = [a; b; c] ∧ lower a = 97 ∧ lower b = 110 ∧ lower c = 100).
Proof.
  unfold keyword. split.
  - intros [Hk|Hk]; [left|right].
    + destruct tok as [|a [|b [|? ?]]]; try done. injection Hk as ? ?. eauto.
    + destruct tok as [|a [|b [|c [|? ?]]]]; try done. injection Hk as ? ? ?. eauto 10.
  - intros [(a & b & -> & Ha & Hb)|(a & b & c & -> & Ha & Hb & Hc)]; [left|right]; cbn.
    + by rewrite Ha, Hb.
    + by rewrite Ha, Hb, Hc.
Qed.

Lemma keyword_here p s k :
  match_here (Alt (Seq (Lit 79) (Lit 82)) (Seq (Lit 65) (Seq (Lit 78) (Lit 68)))) p s k = true ↔
  ∃ tok rest, s = tok ++ rest ∧ keyword tok ∧ k (last tok) rest = true.
Proof.
  cbn [match_here]. rewrite orb_true_iff. split.
  - intros [Hm|Hm].
    + destruct s as [|a [|b rest]]; rewrite ?andb_false_r in Hm; try done.
      apply andb_true_iff in Hm as [Ha Hm]. apply andb_true_iff in Hm as [Hb Hk].
      apply lit_matches_upper in Ha; [|done]. apply lit_matches_upper in Hb; [|done].
      exists [a; b], rest. repeat split; auto. apply keyword_inv. left. eauto.
    + destruct s as [|a [|b [|c rest]]]; rewrite ?andb_false_r in Hm; try done.
      apply andb_true_iff in Hm as [Ha Hm]. apply andb_true_iff in Hm as [Hb Hm].
      apply andb_true_iff in Hm as [Hc Hk].
      apply lit_matches_upper in Ha; [|done]. apply lit_matches_upper in Hb; [|done].
      apply lit_matches_upper in Hc; [|done].
      exists [a; b; c], rest. repeat split; auto. apply keyword_inv. right. eauto 10.
  - intros (tok & rest & -> & Hk & Hc). apply keyword_inv in Hk as
      [(a & b & -> & Ha & Hb)|(a & b & c & -> & Ha & Hb & Hc')]; [left|right]; cbn.
    + rewrite (proj2 (lit_matches_upper 79 a eq_refl) Ha),
        (proj2 (lit_matches_upper 82 b eq_refl) Hb). done.
    + rewrite (proj2 (lit_matches_upper 65 a eq_refl) Ha),
        (proj2 (lit_matches_upper 78 b eq_refl) Hb),
        (proj2 (lit_matches_upper 68 c eq_refl) Hc'). done.
Qed.
Lemma keyword_head_word tok : keyword tok → opt_word (head tok) = true.
Proof.
  intros [(a & b & -> & Ha & Hb)|(a & b & c & -> & Ha & Hb & Hc)]%keyword_inv.
  - exact (lower_letter_word a 111 eq_refl Ha).
  - exact (lower_letter_word a 97 eq_refl Ha).
Qed.

Lemma keyword_last_word tok : keyword tok → opt_word (last tok) = true.
Proof.
  intros [(a & b & -> & Ha & Hb)|(a & b & c & -> & Ha & Hb & Hc)]%keyword_inv.
  - exact (lower_letter_word b 114 eq_refl Hb).
  - exact (lower_letter_word c 100 eq_refl Hc).
Qed.

Lemma keyword_nonempty tok : keyword tok → tok ≠ [].
Proof. intros [(a & b & -> & _)|(a & b & c & -> & _)]%keyword_inv; done. Qed.

Lemma head_app_ne {A} (l1 l2 : list A) : l1 ≠ [] → head (l1 ++ l2) = head l1.
Proof. by destruct l1. Qed.

Lemma match_here_Seq r1 r2 p s k :
  match_here (Seq r1 r2) p s k = match_here r1 p s (λ p' s', match_here r2 p' s' k).
Proof. done. Qed.

Lemma match_here_WordB p s k :
  match_here WordB p s k = xorb (opt_word p) (opt_word (head s)) && k p s.
Proof. done. Qed.

Lemma match_here_Alt r1 r2 p s k :
  match_here (Alt r1 r2) p s k = match_here r1 p s k || match_here r2 p s k.
Proof. done. Qed.

Lemma boolean_test_here prev post :
  match_here boolean_test prev post ktrue = true ↔
  ∃ tok ws d1 d2 rest,
      keyword tok ∧ post = tok ++ ws ++ d1 :: 61 :: d2 :: rest ∧
      ws ≠ [] ∧ Forall (λ c, is_space c = true) ws ∧
      is_digit d1 = true ∧ is_digit d2 = true ∧
      opt_word prev = false ∧ opt_word (head ws) = false.
Proof.
  unfold boolean_test. rewrite match_here_Seq, match_here_WordB, match_here_Seq.
  rewrite andb_true_iff, keyword_here. split.
  - intros (Hb & tok & rest & -> & Hk & Hm).
    rewrite match_here_Seq, match_here_WordB in Hm.
    apply andb_true_iff in Hm as [Hb2 Hm].
    apply comparison_here in Hm as (ws & d1 & d2 & rest' & -> & Hne & Hws & Hd1 & Hd2).
    exists tok, ws, d1, d2, rest'. split_and!; auto.
    + rewrite head_app_ne, (keyword_head_word _ Hk) in Hb by by apply keyword_nonempty.
      by destruct (opt_word prev).
    + rewrite (keyword_last_word _ Hk) in Hb2. destruct ws; [done|]. cbn in *.
      by destruct (is_word _).
  - intros (tok & ws & d1 & d2 & rest & Hk & -> & Hne & Hws & Hd1 & Hd2 & Hp & Hw).
    split.
    + rewrite head_app_ne by by apply keyword_nonempty.
      by rewrite Hp, (keyword_head_word _ Hk).
    + exists tok, (ws ++ d1 :: 61 :: d2 :: rest).
      split_and!; auto. rewrite match_here_Seq, match_here_WordB.
      apply andb_true_iff. split.
      * rewrite (keyword_last_word _ Hk). destruct ws; [done|]. cbn in *. by rewrite Hw.
      * apply comparison_here. eauto 10.
Qed.

Lemma BLOCK_PATTERN_here prev post :
  match_here BLOCK_PATTERN prev post ktrue = true ↔ blacklisted_at prev post.
Proof.
  unfold BLOCK_PATTERN. rewrite !match_here_Alt. fold boolean_test.
  rewrite !orb_true_iff, boolean_test_here. unfold blacklisted_at. split.
  - intros Hm. repeat destruct Hm as [Hm|Hm]; try by (right; right).
    all: cbn [match_here] in Hm.
    1-6: destruct post as [|x rest]; [done|]; apply andb_true_iff in Hm as [Hm _];
         apply lit_matches_symbol in Hm as ->; [|done..]; left; eexists _, rest;
         (split; [|reflexivity]); cbn; set_solver.
    all: destruct post as [|x [|y rest]]; rewrite ?andb_false_r in Hm; try done;
         apply andb_true_iff in Hm as [Hx Hm]; apply andb_true_iff in Hm as [Hy _];
         apply lit_matches_symbol in Hx as ->; [|done..];
         apply lit_matches_symbol in Hy as ->; [|done..];
         right; left; eexists [_; _], rest; (split; [|reflexivity]); cbn; set_solver.
  - intros [(c & rest & Hc & ->)|[(m & rest & Hm & ->)|Hm]].
    + cbn in Hc. set_unfold in Hc. cbn [match_here].
      destruct Hc as [->|[->|[->|[->|[->|[->|[]]]]]]]; cbn; tauto.
    + cbn in Hm. set_unfold in Hm. cbn [match_here].
      destruct Hm as [->|[->|[->|[]]]]; cbn; tauto.
    + tauto.
Qed.

Theorem search_BLOCK_PATTERN s :
  search BLOCK_PATTERN s = true ↔ blacklisted s.
Proof.
  unfold search, blacklisted. rewrite search_from_iff.
  split; intros (pre & post & -> & Hm); exists pre, post; (split; [done|]).
  - apply BLOCK_PATTERN_here. unfold last_or in Hm. by destruct (last pre).
  - apply BLOCK_PATTERN_here in Hm. unfold last_or. by destruct (last pre).
Qed.
End PatternFacts.

(** ** The guard *)

Section GuardFacts.
Context `{UnicodeData} `{CallStack}.

Lemma search_empty : search BLOCK_PATTERN [] = false.
Proof. reflexivity. Qed.

Lemma scan_for_injection_spec s :
  scan_for_injection s = if search BLOCK_PATTERN s then Raise invalid_input else Return tt.
Proof.
  unfold scan_for_injection. destruct s; [by rewrite search_empty|done].
Qed.

Lemma for_each_Return {A} (f : A → Result unit) (l : list A) :
  for_each f l = Return tt ↔ Forall (λ x, f x = Return tt) l.
Proof.
  induction l as [|x l IH]; cbn [for_each]; [by split|].
  rewrite Forall_cons, <- IH. destruct (f x) as [[]|e]; cbn; [tauto|].
  split; [done|by intros [? _]].
Qed.

Lemma for_each_Raise {A} (f : A → Result unit) (l : list A) e :
  for_each f l = Raise e → ∃ x, x ∈ l ∧ f x = Raise e.
Proof.
  induction l as [|x l IH]; cbn [for_each]; [done|].
  destruct (f x) as [[]|e'] eqn:Hx; cbn.
  - intros (y & ? & ?)%IH. exists y. rewrite elem_of_cons. auto.
  - intros [= ->]. exists x. rewrite elem_of_cons. auto.
Qed.

Lemma for_each_forallb {A} (f : A → Result unit) (g : A → bool) e (l : list A) :
  (∀ x, x ∈ l → f x = if g x then Return tt else Raise e) →
  for_each f l = if forallb g l then Return tt else Raise e.
Proof.
  induction l as [|x l IH]; intros Hf; [done|]. cbn [for_each forallb].
  rewrite (Hf x) by (apply elem_of_cons; auto).
  destruct (g x); cbn; [|done]. apply IH. intros y Hy. apply Hf, elem_of_cons. auto.
Qed.

Lemma forallb_true {A} (f : A → bool) (l : list A) :
  forallb f l = true ↔ Forall (λ x, f x = true) l.
Proof.
  induction l as [|x l IH]; cbn; [by split|].
  by rewrite andb_true_iff, Forall_cons, IH.
Qed.

Lemma forallb_false {A} (f : A → bool) (l : list A) :
  forallb f l = false ↔ ∃ x, x ∈ l ∧ f x = false.
Proof.
  induction l as [|a l IH]; cbn.
  - split; [done|]. by intros (x & ?%elem_of_nil & _).
  - rewrite andb_false_iff, IH. split.
    + intros [Ha|(x & Hx & Hf)]; [exists a|exists x]; rewrite elem_of_cons; auto.
    + intros (x & [->|Hx]%elem_of_cons & Hf); eauto.
Qed.

Lemma clean_JStr s : clean (JStr s) = negb (search BLOCK_PATTERN s).
Proof. unfold clean. cbn. by rewrite andb_true_r. Qed.

Lemma clean_JList l : clean (JList l) = forallb clean l.
Proof.
  induction l as [|x l IH]; [done|]. cbn [forallb]. rewrite <- IH.
  unfold clean. cbn [keys_of strings_of flat_map]. rewrite !forallb_app.
  by destruct (forallb _ (keys_of x)), (forallb _ (strings_of x)),
    (forallb _ (flat_map keys_of l)).
Qed.

Lemma clean_JDict l :
  clean (JDict l) = forallb (λ kv, negb (reserved_key kv.1) && clean kv.2) l.
Proof.
  induction l as [|[k v] l IH]; [done|]. cbn [forallb fst snd]. rewrite <- IH.
  unfold clean. cbn [keys_of strings_of flat_map fst snd forallb app]. rewrite !forallb_app.
  by destruct (reserved_key k), (forallb _ (keys_of v)), (forallb _ (strings_of v)),
    (forallb _ (flat_map _ l)).
Qed.

Lemma raise_HTTPException_enough {A} frames status_code detail :
  (exception_frames ≤ frames)%nat →
  @raise_HTTPException _ A frames status_code detail = Raise (HTTPException status_code detail).
Proof. intros Hf. unfold raise_HTTPException. by rewrite (proj2 (Nat.ltb_ge _ _) Hf). Qed.

Lemma raise_HTTPException_cases {A} frames status_code detail :
  @raise_HTTPException _ A frames status_code detail = Raise RecursionError ∨
  @raise_HTTPException _ A frames status_code detail = Raise (HTTPException status_code detail).
Proof. unfold raise_HTTPException. destruct (_ <? _)%nat; auto. Qed.

Lemma scan_for_injection_within_cases frames s :
  match scan_for_injection_within frames s with
  | Return _ => search BLOCK_PATTERN s = false
  | Raise e => e = RecursionError ∨ (e = invalid_input ∧ search BLOCK_PATTERN s = true)
  end.
Proof.
  destruct frames as [|inner]; cbn [scan_for_injection_within]; [by left|].
  assert (nonempty s && search BLOCK_PATTERN s = search BLOCK_PATTERN s) as ->.
  { destruct s; [by rewrite search_empty|done]. }
  destruct (search BLOCK_PATTERN s); [|done].
  destruct (@raise_HTTPException_cases unit inner 400 "Invalid input detected") as [-> | ->];
    auto.
Qed.

(** Whatever the frames left: the walk returns only on a payload it has
    gone through, and raises HTTP 400 only on one it has found at
    fault. *)
Lemma sanitize_payload_cases frames p :
  match sanitize_payload frames p with
  | Return _ => clean p = true
  | Raise e => e = RecursionError ∨ (e = invalid_input ∧ clean p = false)
  end.
Proof.
  revert p. induction frames as [|inner IH]; intros p; [by left|].
  destruct p as [| | | |s|l|l]; cbn [sanitize_payload]; try done.
  - pose proof (scan_for_injection_within_cases inner s) as Hs. rewrite clean_JStr.
    destruct (scan_for_injection_within inner s) as [[]|e].
    + by rewrite Hs.
    + destruct Hs as [->|[-> Hs]]; [by left|right]. by rewrite Hs.
  - rewrite clean_JList. destruct (for_each _ l) as [[]|e] eqn:Hl.
    + apply for_each_Return in Hl. apply forallb_true.
      eapply Forall_impl; [exact Hl|]. intros x Hx. cbn in Hx.
      pose proof (IH x) as Hc. by rewrite Hx in Hc.
    + apply for_each_Raise in Hl as (x & Hin & Hx).
      pose proof (IH x) as Hc. rewrite Hx in Hc.
      destruct Hc as [->|[-> Hc]]; [by left|right]. split; [done|].
      apply forallb_false. eauto.
  - rewrite clean_JDict. destruct (for_each _ l) as [[]|e] eqn:Hl.
    + apply for_each_Return in Hl. apply forallb_true.
      eapply Forall_impl; [exact Hl|]. intros [k v]. cbn beta iota. cbn [fst snd].
      unfold reserved_key. destruct (_ || _); intros Hx.
      * by destruct (@raise_HTTPException_cases unit inner 400 "Invalid input detected")
          as [He|He]; rewrite He in Hx.
      * pose proof (IH v) as Hc. by rewrite Hx in Hc.
    + apply for_each_Raise in Hl as ([k v] & Hin & Hx).
      assert (e = RecursionError ∨
              e = invalid_input ∧ negb (reserved_key k) && clean v = false) as [->|[-> Hc]];
        [|by left|].
      * revert Hx. cbn beta iota. unfold reserved_key. destruct (_ || _); intros Hx.
        -- destruct (@raise_HTTPException_cases unit inner 400 "Invalid input detected")
             as [He|He]; rewrite He in Hx; injection Hx as <-; auto.
        -- pose proof (IH v) as Hc. rewrite Hx in Hc. destruct Hc as [->|[-> Hc]]; auto.
      * right. split; [done|]. apply forallb_false. exists (k, v). auto.
Qed.

Lemma frames_needed_pos p : (1 ≤ frames_needed p)%nat.
Proof. destruct p; cbn; lia. Qed.

(** With frames enough for the depth of the payload and for the
    exception, the walk goes through. *)
Lemma sanitize_payload_enough frames p :
  (frames_needed p + exception_frames ≤ frames)%nat →
  sanitize_payload frames p = if clean p then Return tt else Raise invalid_input.
Proof.
  revert p. induction frames as [|inner IH]; intros p Hf.
  { pose proof (frames_needed_pos p). lia. }
  destruct p as [| | | |s|l|l]; cbn [sanitize_payload frames_needed] in *; try done.
  - rewrite clean_JStr. destruct inner as [|inner']; [lia|].
    cbn [scan_for_injection_within].
    assert (nonempty s && search BLOCK_PATTERN s = search BLOCK_PATTERN s) as ->.
    { destruct s; [by rewrite search_empty|done]. }
    destruct (search BLOCK_PATTERN s); [|done]. apply raise_HTTPException_enough. lia.
  - rewrite clean_JList. apply for_each_forallb. intros x Hx. apply IH.
    assert (frames_needed x ≤ max_list (frames_needed <$> l))%nat.
    { apply max_list_elem_of_le. by apply list_elem_of_fmap_2. }
    lia.
  - rewrite clean_JDict. apply for_each_forallb. intros [k v] Hx. cbn beta iota.
    cbn [fst snd]. unfold reserved_key. destruct (_ || _); cbn [negb andb].
    + apply raise_HTTPException_enough. lia.
    + apply IH.
      assert (frames_needed v ≤ max_list ((λ kv, frames_needed kv.2) <$> l))%nat.
      { apply max_list_elem_of_le.
        by apply (list_elem_of_fmap_2 (λ kv : pystr * json, frames_needed kv.2) _ (k, v)). }
      lia.
Qed.

(** A payload nested deeper than the frames left. *)
Lemma sanitize_payload_nested frames n p :
  (frames ≤ n)%nat → sanitize_payload frames (nested n p) = Raise RecursionError.
Proof.
  revert n. induction frames as [|inner IH]; intros n Hn; [done|].
  destruct n as [|n]; [lia|].
  change (nested (S n) p) with (JList [nested n p]).
  cbn [sanitize_payload for_each]. by rewrite IH by lia.
Qed.

Lemma keys_of_nested n p : keys_of (nested n p) = keys_of p.
Proof.
  induction n as [|n IH]; [done|].
  change (nested (S n) p) with (JList [nested n p]).
  cbn [keys_of flat_map]. by rewrite app_nil_r.
Qed.

Lemma strings_of_nested n p : strings_of (nested n p) = strings_of p.
Proof.
  induction n as [|n IH]; [done|].
  change (nested (S n) p) with (JList [nested n p]).
  cbn [strings_of flat_map]. by rewrite app_nil_r.
Qed.
End GuardFacts.

Section KeyFacts.
Context `{UnicodeData}.

Lemma str_contains_char c (k : pystr) : str_contains [c] k = true ↔ c ∈ k.
Proof.
  induction k as [|x k IH]; cbn [str_contains startswith].
  - split; [done|]. by intros ?%elem_of_nil.
  - rewrite orb_true_iff, andb_true_r, N.eqb_eq, IH, elem_of_cons. done.
Qed.

Lemma reserved_key_iff (k : pystr) : reserved_key k = true ↔ 36 ∈ k ∨ 46 ∈ k.
Proof.
  unfold reserved_key. rewrite orb_true_iff.
  change (py "$") with [36]. change (py ".") with [46].
  by rewrite !str_contains_char.
Qed.

Lemma clean_benign payload : clean payload = true ↔ benign payload.
Proof.
  unfold clean, benign. rewrite andb_true_iff, !forallb_forall. split.
  - intros [Hk Hs]. split.
    + intros k Hin%list_elem_of_In%Hk%negb_true_iff.
      apply not_true_iff_false in Hin. rewrite reserved_key_iff in Hin. tauto.
    + intros s Hin%list_elem_of_In%Hs%negb_true_iff Hb%search_BLOCK_PATTERN. congruence.
  - intros [Hk Hs]. split.
    + intros k Hin%list_elem_of_In%Hk. apply negb_true_iff, not_true_iff_false.
      rewrite reserved_key_iff. tauto.
    + intros s Hin%list_elem_of_In%Hs. apply negb_true_iff, not_true_iff_false.
      by rewrite search_BLOCK_PATTERN.
Qed.

Lemma clean_false payload :
  clean payload = false ↔
  (∃ s, s ∈ strings_of payload ∧ blacklisted s) ∨
  (∃ k, k ∈ keys_of payload ∧ (36 ∈ k ∨ 46 ∈ k)).
Proof.
  unfold clean. rewrite andb_false_iff, !forallb_false.
  setoid_rewrite negb_false_iff. setoid_rewrite reserved_key_iff.
  setoid_rewrite search_BLOCK_PATTERN. tauto.
Qed.
End KeyFacts.

Section MiddlewareFacts.
Context `{UnicodeData} `{CallStack} `{JsonParser}.

Lemma body_replay request b : body (replay request b) = b.
Proof. unfold body, replay. cbn. apply app_nil_r. Qed.

Lemma replay_post_json b : replay (post_json b) (body (post_json b)) = post_json b.
Proof. unfold replay, body, post_json. cbn. by rewrite app_nil_r. Qed.

Lemma middleware_parsed {A} frames (request : Request) (call_next : Request → A) payload :
  guarded request = true →
  loads_utf8 (body request) = Some payload →
  injection_protection_middleware frames request call_next =
    match sanitize_payload frames payload with
    | Raise (HTTPException status_code detail) => Raise (HTTPException status_code detail)
    | _ => Return (call_next (replay request (body request)))
    end.
Proof.
  intros Hg Hp. unfold injection_protection_middleware. rewrite Hg.
  destruct (body request) as [|b bs] eqn:Hb.
  - by rewrite loads_utf8_empty in Hp.
  - cbn [nonempty]. by rewrite Hp.
Qed.

Lemma middleware_enough {A} frames (request : Request) (call_next : Request → A) payload :
  guarded request = true →
  loads_utf8 (body request) = Some payload →
  (frames_needed payload + exception_frames ≤ frames)%nat →
  injection_protection_middleware frames request call_next =
    if clean payload
    then Return (call_next (replay request (body request)))
    else Raise invalid_input.
Proof.
  intros Hg Hp Hf.
  rewrite (middleware_parsed _ _ _ payload Hg Hp), sanitize_payload_enough by done.
  by destruct (clean payload).
Qed.

Lemma middleware_clean {A} frames (request : Request) (call_next : Request → A) payload :
  guarded request = true →
  loads_utf8 (body request) = Some payload →
  clean payload = true →
  injection_protection_middleware frames request call_next
    = Return (call_next (replay request (body request))).
Proof.
  intros Hg Hp Hc. rewrite (middleware_parsed _ _ _ payload Hg Hp).
  pose proof (sanitize_payload_cases frames payload) as Hs.
  destruct (sanitize_payload frames payload) as [[]|e]; [done|].
  destruct Hs as [->|[-> ?]]; [done|congruence].
Qed.

Lemma middleware_too_deep {A} frames (request : Request) (call_next : Request → A) payload :
  guarded request = true →
  loads_utf8 (body request) = Some payload →
  sanitize_payload frames payload = Raise RecursionError →
  injection_protection_middleware frames request call_next
    = Return (call_next (replay request (body request))).
Proof. intros Hg Hp Hs. by rewrite (middleware_parsed _ _ _ payload Hg Hp), Hs. Qed.

Lemma middleware_unparsed {A} frames (request : Request) (call_next : Request → A) :
  loads_utf8 (body request) = None →
  forwarded request call_next (injection_protection_middleware frames request call_next).
Proof.
  intros Hp. unfold injection_protection_middleware.
  destruct (guarded request); [|by exists request].
  destruct (nonempty (body request)); [|by exists request].
  rewrite Hp. exists (replay request (body request)). by rewrite body_replay.
Qed.
End MiddlewareFacts.

(** A payload nested a thousand deep is parsed, and its walk gives up
    with up to a thousand frames left: the request goes through. *)
Lemma loads_body_deep_key :
  @loads_utf8 example_parser (body (post_json body_deep_key)) = Some payload_deep_key.
Proof. vm_compute. reflexivity. Qed.

Lemma loads_body_deep_string :
  @loads_utf8 example_parser (body (post_json body_deep_string)) = Some payload_deep_string.
Proof. vm_compute. reflexivity. Qed.

Lemma deep_string_is_forwarded frames :
  (frames ≤ 1000)%nat →
  @injection_protection_middleware ascii_only two_frames example_parser _ frames
      (post_json body_deep_string) id
    = Return (post_json body_deep_string).
Proof.
  intros Hf.
  rewrite (@middleware_too_deep ascii_only two_frames example_parser _ frames
             (post_json body_deep_string) id payload_deep_string eq_refl
             loads_body_deep_string).
  - unfold id. by rewrite replay_post_json.
  - by apply sanitize_payload_nested.
Qed.

(** C1 (as amended).  For a POST, PUT or PATCH request with a JSON content
    type whose body parses, the stack having frames enough for the depth
    of the payload, the middleware raises HTTP 400, whatever the rest of
    the application is, exactly when some string value of the parsed
    payload, at any depth, is blacklisted or some mapping key holds [$]
    or [.]; mapping keys are not matched against the blacklist. *)
Theorem C1_rejects_blacklisted_values `{UnicodeData} `{CallStack} `{JsonParser} {A}
    (frames : nat) (request : Request) (call_next : Request → A) (payload : json) :
  guarded request = true →
  loads_utf8 (body request) = Some payload →
  (frames_needed payload + exception_frames ≤ frames)%nat →
  injection_protection_middleware frames request call_next
    = Raise (HTTPException 400 "Invalid input detected") ↔
  (∃ s, s ∈ strings_of payload ∧ blacklisted s) ∨
  (∃ k, k ∈ keys_of payload ∧ (36 ∈ k ∨ 46 ∈ k)).
Proof.
  intros Hg Hp Hf. rewrite (middleware_enough _ _ _ payload Hg Hp Hf), <- clean_false.
  destruct (clean payload); split; done.
Qed.

(** C1 at work: a blacklisted string two levels down. *)
Lemma C1_rejects_blacklisted_values_witness :
  guarded (post_json body_nested_string) = true ∧
  @loads_utf8 example_parser (body (post_json body_nested_string))
    = Some payload_nested_string ∧
  (frames_needed payload_nested_string + @exception_frames two_frames ≤ 900)%nat ∧
  @injection_protection_middleware ascii_only two_frames example_parser _ 900
      (post_json body_nested_string) id
    = Raise (HTTPException 400 "Invalid input detected").
Proof.
  assert (frames_needed payload_nested_string + @exception_frames two_frames ≤ 900)%nat
    as Hf by (cbn; lia).
  split; [reflexivity|]. split; [vm_compute; reflexivity|]. split; [exact Hf|].
  apply (@C1_rejects_blacklisted_values ascii_only two_frames example_parser _ 900 _ id
           payload_nested_string);
    [reflexivity|vm_compute; reflexivity|exact Hf|].
  left. exists (py "x' OR 1=1"). split; [cbn; rewrite !elem_of_cons; auto|].
  apply search_BLOCK_PATTERN. vm_compute. reflexivity.
Defined.

(** C1, as stated, fails on mapping keys: the key [a;b] holds a
    blacklisted character, and the request goes through, whatever the
    frames left.  It fails on deep payloads too: the string [a;b] lies
    within a thousand lists, the walk ends in [RecursionError] before it
    reaches it, whatever the frames left under a recursion limit of 1000,
    and the request goes through. *)
Lemma C1_keys_and_deep_strings_pass :
  (guarded (post_json body_key_semicolon) = true ∧
   @loads_utf8 example_parser (body (post_json body_key_semicolon))
     = Some payload_key_semicolon ∧
   py "a;b" ∈ keys_of payload_key_semicolon ∧
   @blacklisted ascii_only (py "a;b") ∧
   ∀ frames,
     @injection_protection_middleware ascii_only two_frames example_parser _ frames
         (post_json body_key_semicolon) id
       = Return (post_json body_key_semicolon)) ∧
  (guarded (post_json body_deep_string) = true ∧
   @loads_utf8 example_parser (body (post_json body_deep_string))
     = Some payload_deep_string ∧
   py "a;b" ∈ strings_of payload_deep_string ∧
   @blacklisted ascii_only (py "a;b") ∧
   ∀ frames, (frames ≤ 1000)%nat →
     @injection_protection_middleware ascii_only two_frames example_parser _ frames
         (post_json body_deep_string) id
       = Return (post_json body_deep_string)).
Proof.
  assert (@blacklisted ascii_only (py "a;b")) as Hb.
  { apply search_BLOCK_PATTERN. vm_compute. reflexivity. }
  split.
  - split; [reflexivity|]. split; [vm_compute; reflexivity|].
    split; [cbn; rewrite !elem_of_cons; auto|]. split; [exact Hb|].
    intros frames.
    rewrite (@middleware_clean ascii_only two_frames example_parser _ frames
               (post_json body_key_semicolon) id payload_key_semicolon eq_refl);
      [done|vm_compute; reflexivity..].
  - split; [reflexivity|]. split; [exact loads_body_deep_string|]. split; [|split].
    + unfold payload_deep_string. rewrite strings_of_nested. cbn. apply elem_of_cons. by left.
    + exact Hb.
    + apply deep_string_is_forwarded.
Qed.

(** C2 (as amended).  For a POST, PUT or PATCH request with a JSON content
    type whose body parses, the stack having frames enough for the depth
    of the payload, a mapping key anywhere in the payload that holds [$]
    or [.] makes the middleware raise HTTP 400, whatever the rest of the
    application is. *)
Theorem C2_rejects_reserved_keys `{UnicodeData} `{CallStack} `{JsonParser} {A}
    (frames : nat) (request : Request) (call_next : Request → A) (payload : json)
    (k : pystr) :
  guarded request = true →
  loads_utf8 (body request) = Some payload →
  (frames_needed payload + exception_frames ≤ frames)%nat →
  k ∈ keys_of payload →
  36 ∈ k ∨ 46 ∈ k →
  injection_protection_middleware frames request call_next
    = Raise (HTTPException 400 "Invalid input detected").
Proof.
  intros Hg Hp Hf Hk Hc. rewrite (middleware_enough _ _ _ payload Hg Hp Hf).
  assert (clean payload = false) as ->; [|done].
  apply clean_false. right. eauto.
Qed.

(** C2 at work: a key with a dot inside a list inside a mapping. *)
Lemma C2_rejects_reserved_keys_witness :
  guarded (post_json body_key_dot) = true ∧
  @loads_utf8 example_parser (body (post_json body_key_dot))
    = Some payload_key_dot ∧
  (frames_needed payload_key_dot + @exception_frames two_frames ≤ 900)%nat ∧
  py "a.b" ∈ keys_of payload_key_dot ∧
  (36 ∈ py "a.b" ∨ 46 ∈ py "a.b") ∧
  @injection_protection_middleware ascii_only two_frames example_parser _ 900
      (post_json body_key_dot) id
    = Raise (HTTPException 400 "Invalid input detected").
Proof.
  assert (frames_needed payload_key_dot + @exception_frames two_frames ≤ 900)%nat
    as Hf by (cbn; lia).
  assert (py "a.b" ∈ keys_of payload_key_dot)
    as Hk by (cbn; rewrite !elem_of_cons; auto).
  assert (36 ∈ py "a.b" ∨ 46 ∈ py "a.b") as Hc by (right; cbn; rewrite !elem_of_cons; auto).
  split; [reflexivity|]. split; [vm_compute; reflexivity|]. split; [exact Hf|].
  split; [exact Hk|]. split; [exact Hc|].
  apply (@C2_rejects_reserved_keys ascii_only two_frames example_parser _ 900 _ id
           payload_key_dot (py "a.b"));
    [reflexivity|vm_compute; reflexivity|exact Hf|exact Hk|exact Hc].
Defined.

(** C2, as stated, fails on a payload nested deeper than the stack has
    frames: the key [a.b] lies within a thousand lists, the walk ends in
    [RecursionError] before it reaches it, whatever the frames left
    under a recursion limit of 1000, and the request goes through. *)
Lemma C2_deep_key_is_forwarded :
  guarded (post_json body_deep_key) = true ∧
  @loads_utf8 example_parser (body (post_json body_deep_key)) = Some payload_deep_key ∧
  py "a.b" ∈ keys_of payload_deep_key ∧
  46 ∈ py "a.b" ∧
  ∀ frames, (frames ≤ 1000)%nat →
    @injection_protection_middleware ascii_only two_frames example_parser _ frames
        (post_json body_deep_key) id
      = Return (post_json body_deep_key).
Proof.
  split; [reflexivity|]. split; [exact loads_body_deep_key|]. split; [|split].
  - unfold payload_deep_key. rewrite keys_of_nested. cbn. apply elem_of_cons. by left.
  - cbn. rewrite !elem_of_cons. auto.
  - intros frames Hf.
    rewrite (@middleware_too_deep ascii_only two_frames example_parser _ frames
               (post_json body_deep_key) id payload_deep_key eq_refl loads_body_deep_key).
    + unfold id. by rewrite replay_post_json.
    + by apply sanitize_payload_nested.
Qed.

(** C3.  For a POST, PUT or PATCH request with a JSON content type, when
    the body does not parse, or parses to a payload with no [$] or [.] in
    a key and no blacklisted string value, the middleware raises nothing,
    whatever the frames left: the request reaches the rest of the
    application with its method, content type and body as they were. *)
Theorem C3_passes_unparsed_and_benign `{UnicodeData} `{CallStack} `{JsonParser} {A}
    (frames : nat) (request : Request) (call_next : Request → A) :
  guarded request = true →
  loads_utf8 (body request) = None ∨
    (∃ payload, loads_utf8 (body request) = Some payload ∧ benign payload) →
  forwarded request call_next (injection_protection_middleware frames request call_next).
Proof.
  intros Hg [Hp|(payload & Hp & Hb)].
  - by apply middleware_unparsed.
  - apply clean_benign in Hb. rewrite (middleware_clean _ _ _ payload Hg Hp Hb).
    exists (replay request (body request)). by rewrite body_replay.
Qed.

(** C3 at work: the benign payload of the specification. *)
Lemma C3_passes_unparsed_and_benign_witness :
  guarded (post_json body_benign) = true ∧
  (∃ payload, @loads_utf8 example_parser (body (post_json body_benign)) = Some payload ∧
              @benign ascii_only payload) ∧
  forwarded (post_json body_benign) id
    (@injection_protection_middleware ascii_only two_frames example_parser _ 900
       (post_json body_benign) id).
Proof.
  assert (∃ payload, @loads_utf8 example_parser (body (post_json body_benign)) = Some payload ∧
                     @benign ascii_only payload) as Hb.
  { exists payload_benign.
    split; [vm_compute; reflexivity|]. apply clean_benign. vm_compute. reflexivity. }
  split; [reflexivity|]. split; [exact Hb|].
  apply C3_passes_unparsed_and_benign; [reflexivity|right; exact Hb].
Defined.

(** ** Identifiers *)

Lemma unhex_cases c n :
  unhex c = Some n →
  (48 ≤ c ≤ 57 ∧ n = c - 48) ∨ (97 ≤ c ≤ 102 ∧ n = c - 87) ∨ (65 ≤ c ≤ 70 ∧ n = c - 55).
Proof.
  unfold unhex, between.
  destruct (N.leb_spec 48 c), (N.leb_spec c 57); cbn [andb]; try (intros [= <-]; lia);
    destruct (N.leb_spec 97 c), (N.leb_spec c 102); cbn [andb]; try (intros [= <-]; lia);
    destruct (N.leb_spec 65 c), (N.leb_spec c 70); cbn [andb]; try (intros [= <-]; lia);
    done.
Qed.

Lemma unhex_bound c n : unhex c = Some n → n < 16.
Proof. intros [[? ->]|[[? ->]|[? ->]]]%unhex_cases; lia. Qed.

Lemma unhex_is_Some c : is_Some (unhex c) ↔ c ∈ hex_chars.
Proof.
  unfold hex_chars. cbn. rewrite !elem_of_cons, elem_of_nil.
  unfold unhex, between.
  repeat match goal with |- context [?a <=? ?b] => destruct (N.leb_spec a b) end;
    cbn; (split; [intros [? ?]; try done; lia | intros ?; try (eexists; reflexivity); lia]).
Qed.

Lemma is_ascii_space_iff c : is_ascii_space c = true ↔ c ∈ ascii_whitespace.
Proof.
  unfold ascii_whitespace, is_ascii_space, between.
  rewrite !elem_of_cons, elem_of_nil.
  destruct (N.leb_spec 9 c), (N.leb_spec c 13), (N.eqb_spec c 32); cbn;
    (split; [intros ?; try done; lia | intros ?; try done; lia]).
Qed.

Lemma hex_not_space c : c ∈ hex_chars → is_ascii_space c = false.
Proof.
  intros [n [[? _]|[[? _]|[? _]]]%unhex_cases]%unhex_is_Some;
    unfold is_ascii_space, between;
    destruct (N.leb_spec 9 c), (N.leb_spec c 13), (N.eqb_spec c 32); cbn; try done; lia.
Qed.

Lemma is_ascii_space_lower c : is_ascii_space (lower c) = is_ascii_space c.
Proof.
  unfold lower, between. destruct (N.leb_spec 65 c), (N.leb_spec c 90); cbn [andb]; try done.
  unfold is_ascii_space, between.
  destruct (N.leb_spec 9 (c + 32)), (N.leb_spec (c + 32) 13), (N.eqb_spec (c + 32) 32),
    (N.leb_spec 9 c), (N.leb_spec c 13), (N.eqb_spec c 32); cbn; try done; lia.
Qed.

Lemma between_true lo hi c : lo ≤ c → c ≤ hi → between lo hi c = true.
Proof. intros ?%N.leb_le ?%N.leb_le. unfold between. by apply andb_true_iff. Qed.

Lemma between_false lo hi c : c < lo ∨ hi < c → between lo hi c = false.
Proof.
  intros Hc. unfold between. apply andb_false_iff.
  destruct Hc as [?%N.leb_gt|?%N.leb_gt]; auto.
Qed.

Lemma unhex_lower c : unhex (lower c) = unhex c.
Proof.
  unfold lower. destruct (between 65 90 c) eqn:Hu; [|done].
  apply andb_true_iff in Hu as [Hlo%N.leb_le Hhi%N.leb_le]. unfold unhex.
  destruct (N.le_gt_cases c 70).
  - rewrite (between_false 48 57 (c + 32)), (between_true 97 102 (c + 32)),
      (between_false 48 57 c), (between_false 97 102 c), (between_true 65 70 c) by lia.
    f_equal. lia.
  - by rewrite (between_false 48 57 (c + 32)), (between_false 97 102 (c + 32)),
      (between_false 65 70 (c + 32)), (between_false 48 57 c), (between_false 97 102 c),
      (between_false 65 70 c) by lia.
Qed.

Lemma hex_digit_unhex c n : unhex c = Some n → hex_digit n = lower c.
Proof.
  intros [[? ->]|[[? ->]|[? ->]]]%unhex_cases; unfold hex_digit, lower, between.
  - destruct (N.ltb_spec (c - 48) 10), (N.leb_spec 65 c); cbn [andb]; lia.
  - destruct (N.ltb_spec (c - 87) 10), (N.leb_spec 65 c), (N.leb_spec c 90); cbn [andb]; lia.
  - destruct (N.ltb_spec (c - 55) 10), (N.leb_spec 65 c), (N.leb_spec c 90); cbn [andb]; lia.
Qed.

Lemma hex_byte_unhex hi lo h l b :
  unhex hi = Some h → unhex lo = Some l → Byte.of_N (16 * h + l) = Some b →
  hex_byte b = [lower hi; lower lo].
Proof.
  intros Hh Hl Hb%Byte.to_of_N. unfold hex_byte. rewrite Hb.
  pose proof (unhex_bound _ _ Hl) as Hlt.
  assert ((16 * h + l) / 16 = h) as -> by (symmetry; apply (N.div_unique _ 16 h l); lia).
  assert ((16 * h + l) mod 16 = l) as -> by (symmetry; apply (N.mod_unique _ 16 h l); lia).
  by rewrite (hex_digit_unhex _ _ Hh), (hex_digit_unhex _ _ Hl).
Qed.

(** The three ways [fromhex] goes on. *)
Lemma fromhex_space c s : is_ascii_space c = true → fromhex (c :: s) = fromhex s.
Proof. intros Hc. cbn [fromhex]. by rewrite Hc. Qed.

Lemma fromhex_single c : is_ascii_space c = false → fromhex [c] = None.
Proof. intros Hc. cbn [fromhex]. by rewrite Hc. Qed.

Lemma fromhex_pair hi lo s :
  is_ascii_space hi = false →
  fromhex (hi :: lo :: s) =
    h ← unhex hi; l ← unhex lo; b ← Byte.of_N (16 * h + l);
    bs ← fromhex s; Some (b :: bs).
Proof. intros Hc. cbn [fromhex]. by rewrite Hc. Qed.

Lemma fromhex_hex_byte b s :
  fromhex (hex_byte b ++ s) = bs ← fromhex s; Some (b :: bs).
Proof. destruct b; reflexivity. Qed.

Lemma fromhex_str o : fromhex (ObjectId_str o) = Some o.
Proof.
  induction o as [|b o IH]; [done|].
  change (ObjectId_str (b :: o)) with (hex_byte b ++ ObjectId_str o).
  by rewrite fromhex_hex_byte, IH.
Qed.

Lemma length_ObjectId_str o : length (ObjectId_str o) = (2 * length o)%nat.
Proof.
  induction o as [|b o IH]; [done|].
  change (ObjectId_str (b :: o)) with (hex_byte b ++ ObjectId_str o).
  rewrite length_app, IH. cbn. lia.
Qed.

Lemma ObjectId_of_str_str o :
  length o = 12%nat → ObjectId_of_str (ObjectId_str o) = Some o.
Proof.
  intros Hl. unfold ObjectId_of_str.
  rewrite bool_decide_eq_true_2 by (rewrite length_ObjectId_str; lia).
  apply fromhex_str.
Qed.

(** Induction over a string read one or two characters at a time. *)
Lemma pair_ind {A} (P : list A → Prop) :
  P [] → (∀ x, P [x]) → (∀ x y l, P l → P (y :: l) → P (x :: y :: l)) → ∀ l, P l.
Proof.
  intros H0 H1 H2 l. enough (P l ∧ ∀ x, P (x :: l)) as [? _] by done.
  induction l as [|y l [IH1 IH2]]; [by split|].
  split; [apply IH2|]. intros x. apply H2; auto.
Qed.

Lemma fromhex_is_Some s : is_Some (fromhex s) ↔ hex_pairs s.
Proof.
  split.
  - induction s as [|x|x y s IH1 IH2] using pair_ind.
    + constructor.
    + destruct (is_ascii_space x) eqn:Hx.
      * intros _. apply hex_pairs_space; [by apply is_ascii_space_iff|constructor].
      * rewrite fromhex_single by done. by intros [? ?].
    + destruct (is_ascii_space x) eqn:Hx.
      * rewrite fromhex_space by done. intros Hs.
        apply hex_pairs_space; [by apply is_ascii_space_iff|auto].
      * rewrite fromhex_pair by done. intros [bs Hbs].
        destruct (unhex x) as [h|] eqn:Hh; [|done].
        destruct (unhex y) as [l|] eqn:Hl; [|done]. cbn in Hbs.
        destruct (Byte.of_N _); [|done]. cbn in Hbs.
        destruct (fromhex s) as [bs'|] eqn:Hs; [|done].
        apply hex_pairs_pair; [apply unhex_is_Some; by eexists..|apply IH1; by eexists].
  - induction 1 as [|c s Hc _ IH|hi lo s Hhi Hlo _ IH].
    + by eexists.
    + by rewrite fromhex_space by by apply is_ascii_space_iff.
    + rewrite fromhex_pair by by apply hex_not_space.
      apply unhex_is_Some in Hhi as [h Hh]. apply unhex_is_Some in Hlo as [l Hl].
      destruct IH as [bs Hbs]. rewrite Hh, Hl, Hbs. cbn.
      destruct (Byte.of_N (16 * h + l)) as [b|] eqn:Hb; [by eexists|].
      apply Byte.of_N_None_iff in Hb. apply unhex_bound in Hh, Hl. lia.
Qed.

(** Two characters at least are read for a byte. *)
Lemma length_fromhex s o : fromhex s = Some o → (2 * length o ≤ length s)%nat.
Proof.
  revert o. induction s as [|x|x y s IH1 IH2] using pair_ind; intros o.
  - by intros [= <-].
  - destruct (is_ascii_space x) eqn:Hx.
    + rewrite fromhex_space by done. intros [= <-]. cbn. lia.
    + by rewrite fromhex_single.
  - destruct (is_ascii_space x) eqn:Hx.
    + rewrite fromhex_space by done. intros Ho%IH2. cbn [length] in *. lia.
    + rewrite fromhex_pair by done.
      destruct (unhex x); [|done]. destruct (unhex y); [|done]. cbn.
      destruct (Byte.of_N _); [|done]. cbn.
      destruct (fromhex s) as [bs|]; [|done]. intros [= <-]. cbn [length].
      specialize (IH1 bs eq_refl). lia.
Qed.

(** When two characters exactly are read for each byte, they are all
    hexadecimal digits, those [str] writes up to letter case. *)
Lemma fromhex_full s o :
  fromhex s = Some o → length s = (2 * length o)%nat →
  Forall (λ c, c ∈ hex_chars) s ∧ ObjectId_str o = lower <$> s.
Proof.
  revert o. induction s as [|x|x y s IH1 IH2] using pair_ind; intros o.
  - by intros [= <-] _.
  - destruct (is_ascii_space x) eqn:Hx.
    + rewrite fromhex_space by done. by intros [= <-].
    + by rewrite fromhex_single.
  - destruct (is_ascii_space x) eqn:Hx.
    + rewrite fromhex_space by done. intros Ho%length_fromhex. cbn [length] in *. lia.
    + rewrite fromhex_pair by done.
      destruct (unhex x) as [h|] eqn:Hh; [|done].
      destruct (unhex y) as [l|] eqn:Hl; [|done]. cbn.
      destruct (Byte.of_N _) as [b|] eqn:Hb; [|done]. cbn.
      destruct (fromhex s) as [bs|]; [|done]. intros [= <-] Hlen. cbn [length] in Hlen.
      destruct (IH1 bs eq_refl) as [Hhex Hstr]; [lia|]. split.
      * repeat apply Forall_cons_2; [apply unhex_is_Some; by eexists..|done].
      * change (ObjectId_str (b :: bs)) with (hex_byte b ++ ObjectId_str bs).
        by rewrite (hex_byte_unhex _ _ _ _ _ Hh Hl Hb), Hstr.
Qed.

Lemma fromhex_hex s :
  Forall (λ c, c ∈ hex_chars) s → Nat.Even (length s) →
  ∃ o, fromhex s = Some o ∧ length s = (2 * length o)%nat.
Proof.
  induction s as [|x|x y s IH1 _] using pair_ind.
  - intros _ _. by exists [].
  - intros _ [n Hn]. cbn in Hn. lia.
  - intros Hall [n Hn]. apply Forall_cons in Hall as [Hx Hall].
    apply Forall_cons in Hall as [Hy Hs].
    destruct (IH1 Hs) as (bs & Hbs & Hlen).
    { exists (n - 1)%nat. cbn [length] in Hn. lia. }
    rewrite fromhex_pair by by apply hex_not_space.
    apply unhex_is_Some in Hx as [h Hh]. apply unhex_is_Some in Hy as [l Hl].
    rewrite Hh, Hl, Hbs. cbn.
    destruct (Byte.of_N (16 * h + l)) as [b|] eqn:Hb.
    + exists (b :: bs). split; [done|]. cbn [length]. lia.
    + apply Byte.of_N_None_iff in Hb. apply unhex_bound in Hh, Hl. lia.
Qed.

Lemma fromhex_lower s : fromhex (lower <$> s) = fromhex s.
Proof.
  induction s as [|x|x y s IH1 IH2] using pair_ind; [done|..].
  - change (lower <$> [x]) with [lower x]. destruct (is_ascii_space x) eqn:Hx.
    + by rewrite !fromhex_space by by rewrite ?is_ascii_space_lower.
    + by rewrite !fromhex_single by by rewrite ?is_ascii_space_lower.
  - change (lower <$> x :: y :: s) with (lower x :: (lower <$> y :: s)).
    destruct (is_ascii_space x) eqn:Hx.
    + by rewrite !fromhex_space by by rewrite ?is_ascii_space_lower.
    + change (lower <$> y :: s) with (lower y :: (lower <$> s)).
      rewrite !fromhex_pair by by rewrite ?is_ascii_space_lower.
      by rewrite !unhex_lower, IH1.
Qed.

Lemma ObjectId_of_str_lower s : ObjectId_of_str (lower <$> s) = ObjectId_of_str s.
Proof. unfold ObjectId_of_str. by rewrite length_fmap, fromhex_lower. Qed.

(** What [ObjectId] takes, and what it makes of it. *)
Lemma ObjectId_of_str_is_Some s : is_Some (ObjectId_of_str s) ↔ accepted_id s.
Proof.
  unfold ObjectId_of_str, accepted_id. case_bool_decide as Hl.
  - rewrite fromhex_is_Some. tauto.
  - split; [by intros [? ?]|tauto].
Qed.

Lemma ObjectId_of_str_length s o : ObjectId_of_str s = Some o → (length o ≤ 12)%nat.
Proof.
  unfold ObjectId_of_str. case_bool_decide as Hl; [|done].
  intros Ho%length_fromhex. lia.
Qed.

Lemma ObjectId_of_str_well_formed s :
  well_formed_id s →
  ∃ o, ObjectId_of_str s = Some o ∧ length o = 12%nat ∧ ObjectId_str o = lower <$> s.
Proof.
  intros [Hl Hh]. destruct (fromhex_hex s Hh) as (o & Ho & Hlen).
  { exists 12%nat. lia. }
  exists o. unfold ObjectId_of_str. rewrite bool_decide_eq_true_2 by done.
  split; [done|]. split; [lia|]. by apply (fromhex_full s o Ho Hlen).
Qed.

Lemma ObjectId_of_str_12 s o :
  ObjectId_of_str s = Some o → length o = 12%nat →
  well_formed_id s ∧ ObjectId_str o = lower <$> s.
Proof.
  unfold ObjectId_of_str, well_formed_id. case_bool_decide as Hl; [|done].
  intros Ho Hlen. destruct (fromhex_full s o Ho) as [? ?]; [lia|]. done.
Qed.

Lemma well_formed_ObjectId_str o : length o = 12%nat → well_formed_id (ObjectId_str o).
Proof.
  intros Hl. exact (proj1 (ObjectId_of_str_12 _ o (ObjectId_of_str_str o Hl) Hl)).
Qed.

Lemma well_formed_accepted s : well_formed_id s → accepted_id s.
Proof.
  intros (o & Ho & _)%ObjectId_of_str_well_formed.
  apply ObjectId_of_str_is_Some. by eexists.
Qed.

Lemma oid_Return s o : oid s = Return o ↔ ObjectId_of_str s = Some o.
Proof. unfold oid. destruct (ObjectId_of_str s); split; congruence. Qed.

Lemma oid_refused s :
  ¬ accepted_id s → ObjectId_of_str s = None.
Proof.
  rewrite <- ObjectId_of_str_is_Some.
  destruct (ObjectId_of_str s); [|done]. intros []. by eexists.
Qed.

Lemma oid_malformed s :
  ¬ accepted_id s → oid s = Raise (HTTPException 400 "Invalid id format").
Proof. intros Hs%oid_refused. unfold oid. by rewrite Hs. Qed.

(** ** Collections *)

Lemma matches_by_id o d : matches (by_id o) d = true ↔ _id d = o.
Proof.
  unfold matches, by_id, doc_get. cbn. rewrite andb_true_r, bool_decide_eq_true.
  split; [by intros [= ->]|by intros ->].
Qed.

Lemma find_one_by_id_None c o : find_one c (by_id o) = None ↔ o ∉ ids c.
Proof.
  unfold find_one, ids. induction c as [|d c IH].
  - split; [intros _ ?%elem_of_nil; done|done].
  - rewrite filter_cons, fmap_cons, not_elem_of_cons. case_decide as Hm.
    + apply matches_by_id in Hm. cbn. split; [done|]. intros [? _]. congruence.
    + rewrite IH. rewrite matches_by_id in Hm. split; [|tauto]. intros ?. split; congruence.
Qed.

Lemma find_one_by_id_Some c o d :
  find_one c (by_id o) = Some d → d ∈ c ∧ _id d = o.
Proof.
  unfold find_one. intros Hd.
  assert (d ∈ filter (λ d, matches (by_id o) d = true) c) as Hin.
  { destruct (filter _ c); [done|]. cbn in Hd. injection Hd as ->. apply elem_of_cons. auto. }
  apply list_elem_of_filter in Hin as [Hm ?]. by apply matches_by_id in Hm.
Qed.

Lemma find_one_app_fresh c o doc :
  o ∉ ids c → find_one (c ++ [{| _id := o; fields := doc |}]) (by_id o)
              = Some {| _id := o; fields := doc |}.
Proof.
  intros Hf%find_one_by_id_None. unfold find_one in *. rewrite filter_app.
  destruct (filter _ c); [|done]. rewrite app_nil_l, filter_cons, decide_True; [done|].
  by apply matches_by_id.
Qed.

Lemma update_first_by_id c o new :
  match find_one c (by_id o) with
  | None => update_first c (by_id o) new = (0%nat, c)
  | Some d =>
      ∃ c', update_first c (by_id o) new = (1%nat, c') ∧
            find_one c' (by_id o) = Some {| _id := o; fields := new ∪ fields d |} ∧
            ids c' = ids c
  end.
Proof.
  unfold find_one. induction c as [|d c IH]; cbn [update_first]; [done|].
  rewrite filter_cons. destruct (matches (by_id o) d) eqn:Hm.
  - rewrite decide_True by done. cbn [head]. eexists. split; [done|].
    apply matches_by_id in Hm as Hid. split; [|done].
    rewrite filter_cons, decide_True by (by apply matches_by_id). cbn. by rewrite Hid.
  - rewrite decide_False by congruence.
    destruct (head (filter _ c)) as [d'|].
    + destruct IH as (c' & -> & Hf & Hids). eexists. split; [done|]. split.
      * rewrite filter_cons, decide_False by congruence. done.
      * unfold ids in *. by rewrite !fmap_cons, Hids.
    + by rewrite IH.
Qed.

Lemma delete_one_by_id c o :
  unique_ids c →
  match find_one c (by_id o) with
  | None => delete_one c (by_id o) = (0%nat, c)
  | Some d =>
      ∃ c', delete_one c (by_id o) = (1%nat, c') ∧ (o ∉ ids c') ∧
            (∀ d', d' ∈ c' ↔ d' ∈ c ∧ d' ≠ d) ∧ unique_ids c'
  end.
Proof.
  unfold find_one, unique_ids, ids. induction c as [|d c IH]; cbn [delete_one]; [done|].
  rewrite fmap_cons, NoDup_cons. intros [Hd Hc].
  rewrite filter_cons. destruct (matches (by_id o) d) eqn:Hm.
  - rewrite decide_True by done. cbn. exists c. apply matches_by_id in Hm as <-.
    split_and!; auto. intros d'. rewrite elem_of_cons. split.
    + intros Hin. split; [auto|]. intros ->. apply Hd. by apply list_elem_of_fmap_2.
    + intros [[->|?] ?]; done.
  - rewrite decide_False by congruence. specialize (IH Hc).
    assert (_id d ≠ o) as Hne by (rewrite <- matches_by_id; congruence).
    destruct (head (filter _ c)) as [d'|] eqn:Hh.
    + destruct IH as (c' & -> & Hf & Hiff & Hu). eexists. split; [done|].
      assert (d ≠ d') as Hdd.
      { intros ->. apply find_one_by_id_Some in Hh as [_ ?]. done. }
      split_and!.
      * rewrite fmap_cons, not_elem_of_cons. done.
      * intros d''. rewrite !elem_of_cons, Hiff. split.
        -- intros [->|[? ?]]; auto.
        -- intros [[->|?] ?]; auto.
      * rewrite fmap_cons, NoDup_cons. split; [|done].
        intros (d'' & Heq & [Hin _]%Hiff)%list_elem_of_fmap.
        apply Hd. rewrite Heq. by apply list_elem_of_fmap_2.
    + by rewrite IH.
Qed.

Lemma insert_one_fresh c doc o :
  bson_encodable doc = true → o ∉ ids c →
  insert_one c doc o = (Return o, c ++ [{| _id := o; fields := doc |}]).
Proof.
  intros He Hf. unfold insert_one. rewrite He. cbn [negb].
  by rewrite bool_decide_eq_false_2.
Qed.

Lemma insert_one_overflow c doc o :
  bson_encodable doc = false → insert_one c doc o = (Raise OverflowError, c).
Proof. intros He. unfold insert_one. by rewrite He. Qed.

(** An insert either raises and writes nothing, or appends. *)
Lemma insert_one_cases c doc o :
  (∃ err, insert_one c doc o = (Raise err, c)) ∨
  (bson_encodable doc = true ∧ (o ∉ ids c) ∧
   insert_one c doc o = (Return o, c ++ [{| _id := o; fields := doc |}])).
Proof.
  unfold insert_one. destruct (bson_encodable doc); cbn [negb]; [|eauto].
  case_bool_decide; [eauto|]. right. done.
Qed.

Lemma insert_one_unique c doc o : unique_ids c → unique_ids (insert_one c doc o).2.
Proof.
  intros Hu. destruct (insert_one_cases c doc o) as [[err ->]|(_ & Hin & ->)]; [done|].
  unfold unique_ids, ids in *.
  cbn. rewrite fmap_app. apply NoDup_app. split; [done|]. split.
  - intros x Hx [->|[]%elem_of_nil]%elem_of_cons. done.
  - apply NoDup_singleton.
Qed.

Lemma update_first_ids c q new : ids (update_first c q new).2 = ids c.
Proof.
  induction c as [|d c IH]; [done|]. cbn [update_first].
  destruct (matches q d); [done|]. destruct (update_first c q new) as [n c'].
  cbn in *. by rewrite IH.
Qed.

Lemma update_one_encodable c q new :
  bson_encodable new = true →
  update_one c q new = (Return (update_first c q new).1, (update_first c q new).2).
Proof.
  intros He. unfold update_one. rewrite He. cbn [negb]. by destruct (update_first c q new).
Qed.

Lemma update_one_overflow c q new :
  bson_encodable new = false → update_one c q new = (Raise OverflowError, c).
Proof. intros He. unfold update_one. by rewrite He. Qed.

(** ** The entity handlers *)

Lemma union_same_dom (m1 m2 : gmap string value) : dom m2 = dom m1 → m1 ∪ m2 = m1.
Proof.
  intros Hd. apply map_eq. intros i. rewrite lookup_union.
  destruct (m1 !! i) eqn:H1; [by destruct (m2 !! i)|].
  apply not_elem_of_dom in H1. rewrite <- Hd in H1. apply not_elem_of_dom in H1.
  by rewrite H1.
Qed.

Lemma dom_dump (E : Entity) (e e0 : Model E) : dom (dump e0) = dom (dump e).
Proof.
  destruct E; unfold dump, model_dump;
    [unfold Event_model|unfold Attendee_model|unfold Venue_model|unfold Booking_model];
    by rewrite !dom_insert_L, !dom_singleton_L.
Qed.

Ltac handlers :=
  unfold create, get, update, delete, list_all, collection_of,
    create_event, create_attendee, create_venue, create_booking,
    get_event, get_attendee, get_venue, get_booking,
    update_event, update_attendee, update_venue, update_booking,
    delete_event, delete_attendee, delete_venue, delete_booking,
    list_events, list_attendees, list_venues, list_bookings,
    set_events, set_attendees, set_venues, set_booking in *;
  cbn [events attendees venues booking media] in *.

Lemma get_spec (E : Entity) (id_str : pystr) (db : DB) :
  get E id_str db = doc ← get_or_404 (collection_of E db) id_str; Return (to_json doc).
Proof. by destruct E. Qed.

Lemma get_or_404_decoded c id_str o :
  ObjectId_of_str id_str = Some o →
  get_or_404 c id_str =
    match find_one c (by_id o) with
    | Some doc => Return doc
    | None => Raise (HTTPException 404 "Not found")
    end.
Proof. intros Ho. unfold get_or_404, oid. by rewrite Ho. Qed.

Lemma collection_of_set (E : Entity) c db : collection_of E (set_collection E c db) = c.
Proof. by destruct E. Qed.

Lemma set_collection_same (E : Entity) db : set_collection E (collection_of E db) db = db.
Proof. by destruct E, db. Qed.

Lemma create_spec (E : Entity) (e : Model E) (new_id : ObjectId) (db : DB) :
  create E e new_id db =
    (created (label E +:+ " created") (insert_one (collection_of E db) (dump e) new_id).1,
     set_collection E (insert_one (collection_of E db) (dump e) new_id).2 db).
Proof. destruct E; handlers; cbn [dump set_collection]; by destruct (insert_one _ _ _). Qed.

Lemma update_spec (E : Entity) (id_str : pystr) (o : ObjectId) (e : Model E) (db : DB) :
  ObjectId_of_str id_str = Some o →
  bson_encodable (dump e) = true →
  update E id_str e db =
    (message_or_404 (update_first (collection_of E db) (by_id o) (dump e)).1
       (label E +:+ " updated") (label E +:+ " not found"),
     set_collection E (update_first (collection_of E db) (by_id o) (dump e)).2 db).
Proof.
  intros Ho He. destruct E; handlers; unfold oid; rewrite Ho; cbn [dump set_collection] in *;
    by rewrite update_one_encodable by done.
Qed.

Lemma update_overflow (E : Entity) (id_str : pystr) (o : ObjectId) (e : Model E) (db : DB) :
  ObjectId_of_str id_str = Some o →
  bson_encodable (dump e) = false →
  update E id_str e db = (Raise OverflowError, db).
Proof.
  intros Ho He. destruct E; handlers; unfold oid; rewrite Ho; cbn [dump] in *;
    rewrite update_one_overflow by done; by destruct db.
Qed.

Lemma delete_spec (E : Entity) (id_str : pystr) (o : ObjectId) (db : DB) :
  ObjectId_of_str id_str = Some o →
  delete E id_str db =
    (message_or_404 (delete_one (collection_of E db) (by_id o)).1
       (label E +:+ " deleted") (label E +:+ " not found"),
     set_collection E (delete_one (collection_of E db) (by_id o)).2 db).
Proof.
  intros Ho. destruct E; handlers; unfold oid; rewrite Ho; cbn [set_collection];
    by destruct (delete_one _ _).
Qed.

Lemma update_malformed (E : Entity) (id_str : pystr) (e : Model E) (db : DB) :
  ObjectId_of_str id_str = None →
  update E id_str e db = (Raise (HTTPException 400 "Invalid id format"), db).
Proof. intros Ho. destruct E; handlers; unfold oid; by rewrite Ho. Qed.

Lemma delete_malformed (E : Entity) (id_str : pystr) (db : DB) :
  ObjectId_of_str id_str = None →
  delete E id_str db = (Raise (HTTPException 400 "Invalid id format"), db).
Proof. intros Ho. destruct E; handlers; unfold oid; by rewrite Ho. Qed.

(** An update either raises and writes nothing, or is what the server
    does of it. *)
Lemma update_cases (E : Entity) (id_str : pystr) (e : Model E) (db : DB) :
  (∃ err, update E id_str e db = (Raise err, db)) ∨
  (∃ o, ObjectId_of_str id_str = Some o ∧ bson_encodable (dump e) = true ∧
        update E id_str e db =
          (message_or_404 (update_first (collection_of E db) (by_id o) (dump e)).1
             (label E +:+ " updated") (label E +:+ " not found"),
           set_collection E (update_first (collection_of E db) (by_id o) (dump e)).2 db)).
Proof.
  destruct (ObjectId_of_str id_str) as [o|] eqn:Ho;
    [destruct (bson_encodable (dump e)) eqn:He|].
  - right. exists o. split_and!; [done..|]. by apply update_spec.
  - left. eexists. by apply (update_overflow E id_str o).
  - left. eexists. by apply update_malformed.
Qed.

(** A create either raises and writes nothing, or appends the entity
    under the id of the driver. *)
Lemma create_cases (E : Entity) (e : Model E) (new_id : ObjectId) (db : DB) :
  (∃ err, create E e new_id db = (Raise err, db)) ∨
  (bson_encodable (dump e) = true ∧ (new_id ∉ ids (collection_of E db)) ∧
   create E e new_id db =
     (Return (<["message"%string := VStr (py (label E +:+ " created"))]>
                {[ "id"%string := VStr (ObjectId_str new_id) ]}),
      set_collection E
        (collection_of E db ++ [{| _id := new_id; fields := dump e |}]) db)).
Proof.
  rewrite create_spec.
  destruct (insert_one_cases (collection_of E db) (dump e) new_id)
    as [[err ->]|(He & Hf & ->)]; cbn [fst snd].
  - left. exists err. by rewrite set_collection_same.
  - right. done.
Qed.

Lemma list_all_spec (E : Entity) (db : DB) :
  list_all E db = to_json <$> take 100 (collection_of E db).
Proof. by destruct E. Qed.

Lemma delete_one_sublist c q : (delete_one c q).2 `sublist_of` c.
Proof.
  induction c as [|d c IH]; [done|]. cbn [delete_one].
  destruct (matches q d).
  - by apply sublist_cons.
  - destruct (delete_one c q) as [n c']. by apply sublist_skip.
Qed.

Lemma delete_one_unique c q : unique_ids c → unique_ids (delete_one c q).2.
Proof.
  unfold unique_ids, ids. intros Hu. eapply sublist_NoDup; [exact Hu|].
  apply fmap_sublist, delete_one_sublist.
Qed.

Lemma update_first_unique c q new : unique_ids c → unique_ids (update_first c q new).2.
Proof. unfold unique_ids. by rewrite update_first_ids. Qed.

(** The handlers keep the ids of every collection distinct. *)
Lemma create_unique_ids (E : Entity) (e : Model E) (new_id : ObjectId) (db : DB) :
  unique_ids (collection_of E db) →
  unique_ids (collection_of E (create E e new_id db).2).
Proof. intros Hu. rewrite create_spec. cbn [snd]. rewrite collection_of_set. by apply insert_one_unique. Qed.

Lemma update_unique_ids (E : Entity) (id_str : pystr) (e : Model E) (db : DB) :
  unique_ids (collection_of E db) →
  unique_ids (collection_of E (update E id_str e db).2).
Proof.
  intros Hu. destruct (update_cases E id_str e db) as [[err ->]|(o & _ & _ & ->)]; [done|].
  cbn [snd]. rewrite collection_of_set. by apply update_first_unique.
Qed.

Lemma delete_unique_ids (E : Entity) (id_str : pystr) (db : DB) :
  unique_ids (collection_of E db) →
  unique_ids (collection_of E (delete E id_str db).2).
Proof.
  intros Hu. destruct (ObjectId_of_str id_str) as [o|] eqn:Ho.
  - rewrite (delete_spec E id_str o db Ho). cbn [snd]. rewrite collection_of_set.
    by apply delete_one_unique.
  - by rewrite delete_malformed.
Qed.

(** C4 (as amended).  In every collection, creating an entity whose
    integers fit in 64 bits (the driver supplying a fresh 12-byte
    ObjectId) answers with the id as a string, and getting that id returns
    the entity's fields as they were given, together with the id as the
    string [_id]. *)
Theorem C4_create_get_roundtrip (E : Entity) (e : Model E) (new_id : ObjectId) (db : DB) :
  bson_encodable (dump e) = true →
  length new_id = 12%nat →
  new_id ∉ ids (collection_of E db) →
  ∃ response db',
    create E e new_id db = (Return response, db') ∧
    response !! "id"%string = Some (VStr (ObjectId_str new_id)) ∧
    get E (ObjectId_str new_id) db'
      = Return (<["_id"%string := VStr (ObjectId_str new_id)]> (dump e)).
Proof.
  intros He Hlen Hfresh. rewrite create_spec, insert_one_fresh by done. cbn [fst snd].
  do 2 eexists. split; [reflexivity|]. split; [done|].
  rewrite get_spec, collection_of_set.
  rewrite (get_or_404_decoded _ _ new_id) by by apply ObjectId_of_str_str.
  by rewrite find_one_app_fresh.
Qed.

(** C4 at work: an event created in the empty database. *)
Lemma C4_create_get_roundtrip_witness :
  bson_encodable (model_dump summer_fest) = true ∧
  length id_a = 12%nat ∧
  (id_a ∉ ids (events empty_db)) ∧
  get_event (ObjectId_str id_a) (create_event summer_fest id_a empty_db).2
    = Return (<["_id"%string := VStr (ObjectId_str id_a)]> (model_dump summer_fest)).
Proof.
  assert (bson_encodable (model_dump summer_fest) = true) as He by (vm_compute; reflexivity).
  assert (id_a ∉ ids (events empty_db)) as Hf by apply not_elem_of_nil.
  split; [exact He|]. split; [reflexivity|]. split; [exact Hf|].
  destruct (C4_create_get_roundtrip Events summer_fest id_a empty_db He eq_refl Hf)
    as (response & db' & Hc & _ & Hg).
  change (create Events summer_fest id_a empty_db)
    with (create_event summer_fest id_a empty_db) in Hc.
  rewrite Hc. exact Hg.
Defined.

(** C4, as stated, fails on an entity with an integer beyond 64 bits: the
    schema takes an event for 2^63 attendees, the driver raises
    [OverflowError] on it, nothing is stored and no id is answered. *)
Lemma C4_integer_beyond_64_bits :
  Event.max_attendees crowded_fest = (2 ^ 63)%Z ∧
  length id_a = 12%nat ∧
  (id_a ∉ ids (events empty_db)) ∧
  create_event crowded_fest id_a empty_db = (Raise OverflowError, empty_db) ∧
  get_event (ObjectId_str id_a) (create_event crowded_fest id_a empty_db).2
    = Raise (HTTPException 404 "Not found").
Proof.
  split; [reflexivity|]. split; [reflexivity|]. split; [apply not_elem_of_nil|].
  split; vm_compute; reflexivity.
Qed.

(** C9.  In every collection, the list operation returns at most 100
    documents, however many the collection holds. *)
Theorem C9_list_at_most_100 (E : Entity) (db : DB) :
  (length (list_all E db) ≤ 100)%nat.
Proof. rewrite list_all_spec, length_fmap, length_take. lia. Qed.

(** C6 (as amended).  In every collection, get-by-id raises HTTP 400
    exactly when the id is not a string of 24 characters made of pairs of
    hexadecimal digits and whitespace, and HTTP 404 when it is a
    24-character hexadecimal string and no stored document has that id. *)
Theorem C6_get_bad_id_400_absent_404 (E : Entity) (id_str : pystr) (db : DB) :
  (¬ accepted_id id_str →
     get E id_str db = Raise (HTTPException 400 "Invalid id format")) ∧
  (accepted_id id_str →
     ∀ detail, get E id_str db ≠ Raise (HTTPException 400 detail)) ∧
  (well_formed_id id_str →
     (∀ d, d ∈ collection_of E db → ObjectId_of_str id_str ≠ Some (_id d)) →
     get E id_str db = Raise (HTTPException 404 "Not found")).
Proof.
  rewrite get_spec. split_and!.
  - intros Hw. unfold get_or_404. by rewrite oid_malformed.
  - intros [o Ho]%ObjectId_of_str_is_Some detail.
    rewrite (get_or_404_decoded _ _ o Ho). by destruct (find_one _ _).
  - intros (o & Ho & _)%ObjectId_of_str_well_formed Habs.
    rewrite (get_or_404_decoded _ _ o Ho).
    destruct (find_one _ _) as [d|] eqn:Hd; [|done].
    apply find_one_by_id_Some in Hd as [Hin <-]. by destruct (Habs d Hin).
Qed.

(** C6 at work: an id that is refused, and a well-formed id that is not
    stored. *)
Lemma C6_get_bad_id_400_absent_404_witness :
  ¬ accepted_id (py "not-a-valid-id") ∧
  get_event (py "not-a-valid-id") (create_event summer_fest id_a empty_db).2
    = Raise (HTTPException 400 "Invalid id format") ∧
  well_formed_id (ObjectId_str id_b) ∧
  get_event (ObjectId_str id_b) (create_event summer_fest id_a empty_db).2
    = Raise (HTTPException 404 "Not found").
Proof.
  assert (¬ accepted_id (py "not-a-valid-id")) as Hbad.
  { intros [Hlen _]. vm_compute in Hlen. discriminate Hlen. }
  assert (well_formed_id (ObjectId_str id_b)) as Hgood.
  { by apply well_formed_ObjectId_str. }
  split; [exact Hbad|]. split; [|split; [exact Hgood|]].
  - exact (proj1 (C6_get_bad_id_400_absent_404 Events (py "not-a-valid-id")
                    (create_event summer_fest id_a empty_db).2) Hbad).
  - apply (proj2 (proj2 (C6_get_bad_id_400_absent_404 Events (ObjectId_str id_b)
                    (create_event summer_fest id_a empty_db).2)) Hgood).
    intros d Hd. vm_compute in Hd. apply elem_of_cons in Hd as [->|Hd%elem_of_nil]; [|done].
    vm_compute. discriminate.
Defined.

(** C6, as stated, fails on an id with whitespace: 22 hexadecimal digits
    and two spaces are 24 characters that are no hexadecimal identifier,
    [ObjectId] reads eleven bytes from them, and get does not raise HTTP
    400, whatever is stored. *)
Lemma C6_whitespace_id_is_not_400 :
  length spaced_id = 24%nat ∧
  ¬ well_formed_id spaced_id ∧
  oid spaced_id = Return id_short ∧
  ∀ db detail, get_event spaced_id db ≠ Raise (HTTPException 400 detail).
Proof.
  split; [reflexivity|]. split; [|split; [vm_compute; reflexivity|]].
  - intros [_ Hh]. assert (32 ∈ hex_chars) as Hin.
    { apply (proj1 (Forall_forall (λ c, c ∈ hex_chars) spaced_id) Hh).
      apply (bool_decide_unpack _). vm_compute. exact I. }
    revert Hin. apply (bool_decide_unpack _). vm_compute. exact I.
  - intros db detail. unfold get_event.
    rewrite (get_or_404_decoded _ _ id_short) by (vm_compute; reflexivity).
    by destruct (find_one _ _).
Qed.

Lemma set_collection_twice (E : Entity) c c' db :
  set_collection E c (set_collection E c' db) = set_collection E c db.
Proof. by destruct E. Qed.

(** C5 (as amended).  In every collection, update with an id that is not
    24 characters made of pairs of hexadecimal digits and whitespace
    raises HTTP 400.  With an entity whose integers fit in 64 bits and a
    24-character hexadecimal id: if no stored document has the id, it
    raises HTTP 404 and leaves the database as it was; if one has, it
    answers and rewrites every field of the schema with the new entity's
    value, the other fields of the document staying.  A document that
    held the fields of an entity then reads back as the new entity,
    nothing of the prior values surviving. *)
Theorem C5_update_rewrites_schema_fields (E : Entity) (id_str : pystr)
    (e : Model E) (db : DB) :
  (¬ accepted_id id_str →
     update E id_str e db = (Raise (HTTPException 400 "Invalid id format"), db)) ∧
  (well_formed_id id_str → bson_encodable (dump e) = true →
     ∃ o, oid id_str = Return o ∧ ObjectId_str o = lower <$> id_str ∧
       match find_one (collection_of E db) (by_id o) with
       | None =>
           update E id_str e db
             = (Raise (HTTPException 404 (label E +:+ " not found")), db)
       | Some d =>
           ∃ db',
             update E id_str e db = (Return (message (label E +:+ " updated")), db') ∧
             find_one (collection_of E db') (by_id o)
               = Some {| _id := o; fields := dump e ∪ fields d |} ∧
             (∀ f v, dump e !! f = Some v → (dump e ∪ fields d) !! f = Some v) ∧
             (∀ e0 : Model E, fields d = dump e0 →
                get E id_str db'
                  = Return (<["_id"%string := VStr (lower <$> id_str)]> (dump e)))
       end).
Proof.
  split; [intros Hw%oid_refused; by apply update_malformed|].
  intros (o & Ho & _ & Hstr)%ObjectId_of_str_well_formed He.
  exists o. split; [by apply oid_Return|]. split; [done|].
  rewrite (update_spec E id_str o e db Ho He).
  pose proof (update_first_by_id (collection_of E db) o (dump e)) as Hu.
  destruct (find_one (collection_of E db) (by_id o)) as [d|].
  - destruct Hu as (c' & -> & Hf & _). cbn [fst snd].
    eexists. split; [reflexivity|]. rewrite collection_of_set. split; [done|]. split.
    + intros f v Hv. by apply lookup_union_Some_l.
    + intros e0 He0. rewrite <- Hstr.
      rewrite get_spec, collection_of_set, (get_or_404_decoded _ _ o Ho), Hf.
      cbn. unfold to_json. cbn. by rewrite He0, union_same_dom by apply dom_dump.
  - rewrite Hu. cbn [fst snd]. by rewrite set_collection_same.
Qed.

(** C5 at work: an update of an absent id, then of a stored event. *)
Lemma C5_update_rewrites_schema_fields_witness :
  let db1 := (create_event summer_fest id_a empty_db).2 in
  well_formed_id (ObjectId_str id_a) ∧ well_formed_id (ObjectId_str id_b) ∧
  bson_encodable (model_dump winter_ball) = true ∧
  update_event (ObjectId_str id_b) winter_ball db1
    = (Raise (HTTPException 404 "Event not found"), db1) ∧
  (update_event (ObjectId_str id_a) winter_ball db1).1 = Return (message "Event updated") ∧
  get_event (ObjectId_str id_a) (update_event (ObjectId_str id_a) winter_ball db1).2
    = Return (<["_id"%string := VStr (ObjectId_str id_a)]> (model_dump winter_ball)).
Proof.
  intros db1.
  assert (well_formed_id (ObjectId_str id_a)) as Ha.
  { by apply well_formed_ObjectId_str. }
  assert (well_formed_id (ObjectId_str id_b)) as Hb.
  { by apply well_formed_ObjectId_str. }
  assert (bson_encodable (model_dump winter_ball) = true) as He by (vm_compute; reflexivity).
  split; [exact Ha|]. split; [exact Hb|]. split; [exact He|]. split.
  - destruct (proj2 (C5_update_rewrites_schema_fields Events (ObjectId_str id_b)
                       winter_ball db1) Hb He) as (o & Ho & _ & H).
    rewrite (proj2 (oid_Return _ _) (ObjectId_of_str_str id_b eq_refl)) in Ho.
    injection Ho as <-.
    assert (find_one (collection_of Events db1) (by_id id_b) = None) as Hn by reflexivity.
    rewrite Hn in H. exact H.
  - destruct (proj2 (C5_update_rewrites_schema_fields Events (ObjectId_str id_a)
                       winter_ball db1) Ha He) as (o & Ho & _ & H).
    rewrite (proj2 (oid_Return _ _) (ObjectId_of_str_str id_a eq_refl)) in Ho.
    injection Ho as <-.
    assert (find_one (collection_of Events db1) (by_id id_a)
            = Some {| _id := id_a; fields := model_dump summer_fest |}) as Hs by reflexivity.
    rewrite Hs in H.
    destruct H as (db' & Hu & _ & _ & Hg).
    change (update Events) with update_event in Hu. rewrite Hu. cbn [fst snd].
    split; [reflexivity|]. specialize (Hg summer_fest eq_refl).
    change (get Events) with get_event in Hg. rewrite Hg. vm_compute. reflexivity.
Defined.

(** C5, as stated, fails on a malformed id: no stored document matches it,
    and update answers HTTP 400, not 404.  It fails on an entity with an
    integer beyond 64 bits too: the driver raises [OverflowError], for
    the id of a stored event (which is left as it was) as for an absent
    one. *)
Lemma C5_malformed_id_is_400_big_integer_overflows :
  let db1 := (create_event summer_fest id_a empty_db).2 in
  (events empty_db = [] ∧
   update_event (py "not-a-valid-id") winter_ball empty_db
     = (Raise (HTTPException 400 "Invalid id format"), empty_db) ∧
   ∀ detail, (update_event (py "not-a-valid-id") winter_ball empty_db).1
             ≠ Raise (HTTPException 404 detail)) ∧
  (Event.max_attendees crowded_fest = (2 ^ 63)%Z ∧
   events db1 = [{| _id := id_a; fields := model_dump summer_fest |}] ∧
   update_event (ObjectId_str id_a) crowded_fest db1 = (Raise OverflowError, db1) ∧
   update_event (ObjectId_str id_b) crowded_fest db1 = (Raise OverflowError, db1)).
Proof.
  intros db1. split.
  - split; [reflexivity|]. split; [reflexivity|]. intros detail. vm_compute. discriminate.
  - split; [reflexivity|]. split; [vm_compute; reflexivity|].
    split; vm_compute; reflexivity.
Qed.

(** C8 (as amended).  In every collection, whose ids are distinct, delete
    with an id that is not 24 characters made of pairs of hexadecimal
    digits and whitespace raises HTTP 400; with a 24-character
    hexadecimal id that no stored document has, it raises HTTP 404 and
    leaves the database as it was; with the id of a stored document it
    answers and removes that document and no other, after which a second
    delete of the same id, and a get, raise HTTP 404. *)
Theorem C8_delete_then_not_found (E : Entity) (id_str : pystr) (db : DB) :
  unique_ids (collection_of E db) →
  (¬ accepted_id id_str →
     delete E id_str db = (Raise (HTTPException 400 "Invalid id format"), db)) ∧
  (well_formed_id id_str →
     ∃ o, oid id_str = Return o ∧ ObjectId_str o = lower <$> id_str ∧
       match find_one (collection_of E db) (by_id o) with
       | None =>
           delete E id_str db
             = (Raise (HTTPException 404 (label E +:+ " not found")), db)
       | Some d =>
           ∃ db',
             delete E id_str db = (Return (message (label E +:+ " deleted")), db') ∧
             (∀ d', d' ∈ collection_of E db' ↔ d' ∈ collection_of E db ∧ d' ≠ d) ∧
             delete E id_str db'
               = (Raise (HTTPException 404 (label E +:+ " not found")), db') ∧
             get E id_str db' = Raise (HTTPException 404 "Not found")
       end).
Proof.
  intros Hu. split; [intros Hw%oid_refused; by apply delete_malformed|].
  intros (o & Ho & _ & Hstr)%ObjectId_of_str_well_formed.
  exists o. split; [by apply oid_Return|]. split; [done|].
  rewrite (delete_spec E id_str o db Ho).
  pose proof (delete_one_by_id (collection_of E db) o Hu) as Hd.
  destruct (find_one (collection_of E db) (by_id o)) as [d|].
  - destruct Hd as (c' & -> & Hgone & Hiff & Hu'). cbn [fst snd].
    apply find_one_by_id_None in Hgone.
    eexists. split; [reflexivity|]. rewrite collection_of_set. split; [done|]. split.
    + rewrite (delete_spec E id_str o _ Ho), collection_of_set.
      pose proof (delete_one_by_id c' o Hu') as Hd'. rewrite Hgone in Hd'.
      rewrite Hd'. cbn [fst snd]. by rewrite set_collection_twice.
    + by rewrite get_spec, collection_of_set, (get_or_404_decoded _ _ o Ho), Hgone.
  - rewrite Hd. cbn [fst snd]. by rewrite set_collection_same.
Qed.

(** C8 at work: an event deleted twice. *)
Lemma C8_delete_then_not_found_witness :
  unique_ids (events (create_event summer_fest id_a empty_db).2) ∧
  well_formed_id (ObjectId_str id_a) ∧
  (delete_event (ObjectId_str id_a) (create_event summer_fest id_a empty_db).2).1
    = Return (message "Event deleted") ∧
  (delete_event (ObjectId_str id_a)
     (delete_event (ObjectId_str id_a) (create_event summer_fest id_a empty_db).2).2).1
    = Raise (HTTPException 404 "Event not found").
Proof.
  assert (unique_ids (events (create_event summer_fest id_a empty_db).2)) as Hu.
  { apply NoDup_singleton. }
  assert (well_formed_id (ObjectId_str id_a)) as Ha.
  { by apply well_formed_ObjectId_str. }
  split; [exact Hu|]. split; [exact Ha|].
  destruct (proj2 (C8_delete_then_not_found Events (ObjectId_str id_a)
                     (create_event summer_fest id_a empty_db).2 Hu) Ha) as (o & Ho & _ & H).
  rewrite (proj2 (oid_Return _ _) (ObjectId_of_str_str id_a eq_refl)) in Ho.
  injection Ho as <-.
  change (find_one _ (by_id id_a))
    with (Some {| _id := id_a; fields := model_dump summer_fest |}) in H.
  destruct H as (db' & Hd & _ & Hd2 & _).
  change (delete Events) with delete_event in Hd, Hd2.
  rewrite Hd. cbn [fst snd]. rewrite Hd2. split; reflexivity.
Defined.

(** C8, as stated, fails on a malformed id: no stored document matches it,
    and delete answers HTTP 400, not 404. *)
Lemma C8_malformed_id_is_400 :
  events empty_db = [] ∧
  delete_event (py "not-a-valid-id") empty_db
    = (Raise (HTTPException 400 "Invalid id format"), empty_db) ∧
  ∀ detail, (delete_event (py "not-a-valid-id") empty_db).1
            ≠ Raise (HTTPException 404 detail).
Proof. split; [reflexivity|]. split; [reflexivity|]. intros detail. vm_compute. discriminate. Qed.

(** ** Facts on the media store *)

Lemma date_lt_trans_false a b c :
  date_lt a b = false → date_lt b c = false → date_lt a c = false.
Proof.
  destruct a, b, c; cbn; try done; rewrite !bool_decide_eq_false; lia.
Qed.

Lemma date_lt_weaken a b : date_lt a b = true → date_lt b a = false.
Proof. destruct a, b; cbn; try done. rewrite bool_decide_eq_true, bool_decide_eq_false. lia. Qed.

Lemma date_lt_irrefl a : date_lt a a = false.
Proof. destruct a; cbn; [|done]. rewrite bool_decide_eq_false. lia. Qed.

Lemma foldl_keep_latest k b l :
  ∃ r, foldl (keep_latest k) (Some b) l = Some r ∧
       (r = b ∨ r ∈ l) ∧
       date_lt (date_of k r) (date_of k b) = false ∧
       (∀ d, d ∈ l → date_lt (date_of k r) (date_of k d) = false).
Proof.
  revert b. induction l as [|d l IH]; intros b.
  - exists b. split_and!; auto using date_lt_irrefl. by intros d ?%elem_of_nil.
  - cbn [foldl keep_latest]. destruct (date_lt (date_of k b) (date_of k d)) eqn:Hlt.
    + destruct (IH d) as (r & -> & Hr & Hrd & Hall). exists r. split_and!; auto.
      * destruct Hr as [->|?]; right; apply elem_of_cons; auto.
      * eapply date_lt_trans_false; [exact Hrd|]. by apply date_lt_weaken.
      * intros d' [->|?]%elem_of_cons; auto.
    + destruct (IH b) as (r & -> & Hr & Hrb & Hall). exists r. split_and!; auto.
      * destruct Hr as [->|?]; [by left|right; apply elem_of_cons; auto].
      * intros d' [->|?]%elem_of_cons; auto.
        eapply date_lt_trans_false; [exact Hrb|exact Hlt].
Qed.

Lemma find_one_latest_spec c q k :
  match filter (λ d, matches q d = true) c with
  | [] => find_one_latest c q k = None
  | _ :: _ =>
      ∃ d, find_one_latest c q k = Some d ∧
           d ∈ filter (λ d, matches q d = true) c ∧
           ∀ d', d' ∈ filter (λ d, matches q d = true) c →
                 date_lt (date_of k d) (date_of k d') = false
  end.
Proof.
  unfold find_one_latest.
  destruct (filter _ c) as [|b l]; [done|]. cbn [foldl keep_latest].
  destruct (foldl_keep_latest k b l) as (r & -> & Hr & Hrb & Hall).
  exists r. split_and!; auto.
  - destruct Hr as [->|?]; apply elem_of_cons; auto.
  - intros d' [->|?]%elem_of_cons; auto.
Qed.

Ltac media_handlers :=
  unfold upload, latest, upload_event_poster, upload_promo_video, upload_venue_photo,
    get_event_poster, get_promo_video, get_venue_photo in *.

Lemma latest_spec (cat : Category) (owner_id : pystr) (db : DB) :
  latest cat owner_id db =
    match find_one_latest (media db) (attachment_query cat owner_id) "uploaded_at" with
    | None => Raise (HTTPException 404 "No media found")
    | Some doc => streaming_response doc
    end.
Proof. by destruct cat. Qed.

Lemma upload_spec (cat : Category) (owner_id : pystr) (file : UploadFile)
    (now : Z) (new_id : ObjectId) (db : DB) :
  wrong_type file (mime_prefix cat) = false →
  upload cat owner_id file now new_id db =
    (created "Uploaded" (insert_one (media db) (media_doc cat owner_id file now) new_id).1,
     set_media (insert_one (media db) (media_doc cat owner_id file now) new_id).2 db).
Proof.
  intros Hw. destruct cat; media_handlers; cbn [mime_prefix] in Hw; rewrite Hw;
    unfold upload_media; fold (media_doc EventPoster owner_id file now);
    fold (media_doc PromoVideo owner_id file now);
    fold (media_doc VenuePhoto owner_id file now);
    by destruct (insert_one _ _ _).
Qed.

Lemma media_doc_encodable cat owner_id file now :
  bson_encodable (media_doc cat owner_id file now) = true.
Proof.
  unfold bson_encodable, media_doc. apply bool_decide_eq_true.
  apply map_Forall_insert_2; [done|]. apply map_Forall_insert_2; [done|].
  apply map_Forall_insert_2; [by destruct (content_type file)|].
  apply map_Forall_insert_2; [by destruct (filename file)|].
  apply map_Forall_insert_2; [done|]. apply map_Forall_insert_2; [done|].
  apply map_Forall_empty.
Qed.

Lemma streaming_response_encodes cat owner_id file now o :
  streaming_response {| _id := o; fields := media_doc cat owner_id file now |} =
    (encode_disposition (opt_str (filename file)) ;;
     encode_content_type (opt_str (content_type file)) ;;
     Return (served file)).
Proof. by destruct cat. Qed.

(** An upload is served when its name and type can be written in the
    headers, and ends in [UnicodeEncodeError] when not. *)
Lemma streaming_response_uploaded cat owner_id file now o :
  streaming_response {| _id := o; fields := media_doc cat owner_id file now |} =
    if latin1_headers file then Return (served file) else Raise UnicodeEncodeError.
Proof.
  rewrite streaming_response_encodes. unfold latin1_headers.
  destruct (filename file) as [fn|], (content_type file) as [ct|];
    cbn [default from_option opt_str encode_disposition encode_content_type];
    unfold id; try change (latin1 []) with true;
    repeat match goal with |- context [latin1 ?t] => destruct (latin1 t) end;
    reflexivity.
Qed.

Lemma streaming_response_not_400 doc detail :
  streaming_response doc ≠ Raise (HTTPException 400 detail).
Proof.
  unfold streaming_response, getitem, BytesIO, encode_disposition, encode_content_type.
  destruct (doc_get doc "content") as [[]|]; cbn; try done;
    destruct (doc_get doc "content_type") as [[]|]; cbn; try done;
    destruct (doc_get doc "filename") as [[]|]; cbn; try done;
    repeat match goal with |- context [latin1 ?t] => destruct (latin1 t) end; done.
Qed.

Lemma match_nonempty {A} (l : list A) (P Q : Prop) :
  l ≠ [] → match l with [] => P | _ :: _ => Q end → Q.
Proof. by destruct l. Qed.

Lemma uploaded_matches cat owner_id file now o :
  matches (attachment_query cat owner_id)
    {| _id := o; fields := media_doc cat owner_id file now |} = true.
Proof.
  unfold matches, attachment_query. cbn [forallb].
  rewrite !bool_decide_eq_true_2; [done|by destruct cat..].
Qed.

Lemma uploaded_at_uploaded cat owner_id file now o :
  uploaded_at {| _id := o; fields := media_doc cat owner_id file now |} = Some now.
Proof. by destruct cat. Qed.

Lemma latest_attachments (cat : Category) (owner_id : pystr) (db : DB) :
  match attachments cat owner_id db with
  | [] => latest cat owner_id db = Raise (HTTPException 404 "No media found")
  | _ :: _ =>
      ∃ d, d ∈ attachments cat owner_id db ∧
           (∀ d', d' ∈ attachments cat owner_id db →
                  date_lt (uploaded_at d) (uploaded_at d') = false) ∧
           latest cat owner_id db = streaming_response d
  end.
Proof.
  rewrite latest_spec. unfold attachments.
  pose proof (find_one_latest_spec (media db) (attachment_query cat owner_id) "uploaded_at") as Hs.
  destruct (filter _ (media db)) as [|b l]; [by rewrite Hs|].
  destruct Hs as (d & -> & Hin & Hmax). eauto.
Qed.

Lemma upload_fresh (cat : Category) (owner_id : pystr) (file : UploadFile)
    (now : Z) (new_id : ObjectId) (db : DB) :
  wrong_type file (mime_prefix cat) = false →
  new_id ∉ ids (media db) →
  upload cat owner_id file now new_id db =
    (Return (<["message"%string := VStr (py "Uploaded")]>
               {[ "id"%string := VStr (ObjectId_str new_id) ]}),
     set_media (media db ++ [{| _id := new_id; fields := media_doc cat owner_id file now |}]) db).
Proof.
  intros Hw Hf. by rewrite upload_spec, insert_one_fresh by auto using media_doc_encodable.
Qed.

(** An upload either raises and writes nothing, or appends its
    document. *)
Lemma upload_cases (cat : Category) (owner_id : pystr) (file : UploadFile)
    (now : Z) (new_id : ObjectId) (db : DB) :
  (∃ err, upload cat owner_id file now new_id db = (Raise err, db)) ∨
  (wrong_type file (mime_prefix cat) = false ∧ (new_id ∉ ids (media db)) ∧
   upload cat owner_id file now new_id db =
     (Return (<["message"%string := VStr (py "Uploaded")]>
                {[ "id"%string := VStr (ObjectId_str new_id) ]}),
      set_media (media db ++ [{| _id := new_id;
                                 fields := media_doc cat owner_id file now |}]) db)).
Proof.
  destruct (wrong_type file (mime_prefix cat)) eqn:Hw.
  - left. destruct cat; eexists; media_handlers; cbn [mime_prefix] in Hw; by rewrite Hw.
  - rewrite (upload_spec _ _ _ _ _ _ Hw).
    destruct (insert_one_cases (media db) (media_doc cat owner_id file now) new_id)
      as [[err ->]|(_ & Hf & ->)]; cbn [fst snd].
    + left. exists err. by destruct db.
    + right. done.
Qed.

(** C7 (as amended).  For every owner id and category, the latest
    retrieval raises HTTP 404 when no stored attachment matches both, and
    otherwise answers from a matching attachment whose upload timestamp
    no other matching one exceeds.  After two uploads in a row for the
    same owner and category, the second stamped strictly later than the
    first and than every attachment stored for them before, and its file
    name and content type being writable in latin-1, it serves the bytes
    of the second upload. *)
Theorem C7_latest_serves_greatest_timestamp (cat : Category) (owner_id : pystr) (db : DB) :
  match attachments cat owner_id db with
  | [] => latest cat owner_id db = Raise (HTTPException 404 "No media found")
  | _ :: _ =>
      ∃ d, d ∈ attachments cat owner_id db ∧
           (∀ d', d' ∈ attachments cat owner_id db →
                  date_lt (uploaded_at d) (uploaded_at d') = false) ∧
           latest cat owner_id db = streaming_response d
  end ∧
  ∀ file1 file2 now1 now2 id1 id2,
    wrong_type file1 (mime_prefix cat) = false →
    wrong_type file2 (mime_prefix cat) = false →
    latin1_headers file2 = true →
    id1 ∉ ids (media db) → id2 ∉ ids (media db) → id1 ≠ id2 →
    (now1 < now2)%Z →
    (∀ d, d ∈ attachments cat owner_id db → date_lt (uploaded_at d) (Some now2) = true) →
    latest cat owner_id
      (upload cat owner_id file2 now2 id2 (upload cat owner_id file1 now1 id1 db).2).2
    = Return {| streamed := file_read file2;
                response_media_type := opt_str (content_type file2);
                disposition_filename := opt_str (filename file2) |}.
Proof.
  split; [apply latest_attachments|].
  intros file1 file2 now1 now2 id1 id2 Hw1 Hw2 Hl2 Hf1 Hf2 Hne Hlt Hold.
  rewrite (upload_fresh cat owner_id file1 now1 id1 db Hw1 Hf1). cbn [snd].
  rewrite upload_fresh; [|done|]; cycle 1.
  { cbn [media set_media]. unfold ids. rewrite fmap_app, not_elem_of_app. split; [done|].
    cbn. rewrite elem_of_cons, elem_of_nil. intros [?|[]]. congruence. }
  cbn [snd media set_media].
  set (doc1 := {| _id := id1; fields := media_doc cat owner_id file1 now1 |}).
  set (doc2 := {| _id := id2; fields := media_doc cat owner_id file2 now2 |}).
  set (db2 := set_media _ _).
  assert (attachments cat owner_id db2 = attachments cat owner_id db ++ [doc1; doc2]) as Ha.
  { unfold attachments, db2. cbn [media set_media]. rewrite !filter_app.
    rewrite !filter_cons, !decide_True by apply uploaded_matches.
    by rewrite filter_nil, <- app_assoc. }
  pose proof (latest_attachments cat owner_id db2) as Hl. rewrite Ha in Hl.
  apply match_nonempty in Hl; [|by intros [_ ?]%app_eq_nil].
  destruct Hl as (d & Hin & Hmax & ->).
  assert (date_lt (uploaded_at d) (Some now2) = false) as Hd.
  { rewrite <- (uploaded_at_uploaded cat owner_id file2 now2 id2). apply Hmax.
    rewrite elem_of_app, !elem_of_cons. auto. }
  rewrite elem_of_app, !elem_of_cons, elem_of_nil in Hin.
  destruct Hin as [Hin|[->|[->|[]]]].
  - apply Hold in Hin. congruence.
  - unfold doc1 in Hd. rewrite uploaded_at_uploaded in Hd. cbn in Hd.
    by rewrite bool_decide_eq_true_2 in Hd.
  - unfold doc2. by rewrite streaming_response_uploaded, Hl2.
Qed.

(** C7 at work: two posters, the second stamped later. *)
Lemma C7_latest_serves_greatest_timestamp_witness :
  wrong_type (png [x01]) "image/" = false ∧
  wrong_type (png [x02]) "image/" = false ∧
  latin1_headers (png [x02]) = true ∧
  (id_a ∉ ids (media empty_db)) ∧ (id_b ∉ ids (media empty_db)) ∧ id_a ≠ id_b ∧
  (1000 < 2000)%Z ∧
  (∀ d, d ∈ attachments EventPoster (py "e1") empty_db →
        date_lt (uploaded_at d) (Some 2000%Z) = true) ∧
  streamed <$> get_event_poster (py "e1")
    (upload_event_poster (py "e1") (png [x02]) 2000 id_b
       (upload_event_poster (py "e1") (png [x01]) 1000 id_a empty_db).2).2
    = Return [x02].
Proof.
  assert (∀ d, d ∈ attachments EventPoster (py "e1") empty_db →
               date_lt (uploaded_at d) (Some 2000%Z) = true) as Hold.
  { intros d Hd. by apply elem_of_nil in Hd. }
  assert (id_a ≠ id_b) as Hne by discriminate.
  assert (id_a ∉ ids (media empty_db)) as Ha by apply not_elem_of_nil.
  assert (id_b ∉ ids (media empty_db)) as Hb by apply not_elem_of_nil.
  do 3 (split; [reflexivity|]). split; [exact Ha|]. split; [exact Hb|].
  split; [exact Hne|]. split; [reflexivity|]. split; [exact Hold|].
  pose proof (proj2 (C7_latest_serves_greatest_timestamp EventPoster (py "e1") empty_db)
                (png [x01]) (png [x02]) 1000%Z 2000%Z id_a id_b
                eq_refl eq_refl eq_refl Ha Hb Hne eq_refl Hold) as H.
  change (latest EventPoster) with get_event_poster in H.
  change (upload EventPoster) with upload_event_poster in H.
  by rewrite H.
Defined.

(** C7, as stated, fails when the clock steps back between two uploads:
    the second upload is stamped earlier, and the first is served.  It
    fails too when the name of the second file cannot be written in
    latin-1: the upload is stored, stamped later, and the latest
    retrieval ends in [UnicodeEncodeError] instead of serving it. *)
Lemma C7_second_upload_not_served :
  (let db1 := (upload_event_poster (py "e1") (png [x01]) 2000 id_a empty_db).2 in
   let db2 := (upload_event_poster (py "e1") (png [x02]) 1000 id_b db1).2 in
   (upload_event_poster (py "e1") (png [x01]) 2000 id_a empty_db).1
     = Return (<["message"%string := VStr (py "Uploaded")]>
                 {[ "id"%string := VStr (ObjectId_str id_a) ]}) ∧
   (upload_event_poster (py "e1") (png [x02]) 1000 id_b db1).1
     = Return (<["message"%string := VStr (py "Uploaded")]>
                 {[ "id"%string := VStr (ObjectId_str id_b) ]}) ∧
   streamed <$> get_event_poster (py "e1") db2 = Return [x01]) ∧
  (let db1 := (upload_event_poster (py "e1") (png [x01]) 1000 id_a empty_db).2 in
   let db2 := (upload_event_poster (py "e1") (png_haibao [x02]) 2000 id_b db1).2 in
   (upload_event_poster (py "e1") (png_haibao [x02]) 2000 id_b db1).1
     = Return (<["message"%string := VStr (py "Uploaded")]>
                 {[ "id"%string := VStr (ObjectId_str id_b) ]}) ∧
   get_event_poster (py "e1") db2 = Raise UnicodeEncodeError).
Proof.
  split.
  - intros db1 db2. split_and!; vm_compute; reflexivity.
  - intros db1 db2. split_and!; vm_compute; reflexivity.
Qed.

(** C10 (as amended).  The media routes take the owner id as it comes:
    for any string, an upload with the right MIME prefix (the driver
    supplying a fresh ObjectId) succeeds and stores the string unchanged
    as the owner; the latest retrieval raises HTTP 404 when no attachment
    is stored under that owner and category, and never HTTP 400. *)
Theorem C10_owner_id_taken_verbatim (cat : Category) (owner_id : pystr)
    (file : UploadFile) (now : Z) (new_id : ObjectId) (db : DB) :
  wrong_type file (mime_prefix cat) = false →
  new_id ∉ ids (media db) →
  upload cat owner_id file now new_id db =
    (Return (<["message"%string := VStr (py "Uploaded")]>
               {[ "id"%string := VStr (ObjectId_str new_id) ]}),
     set_media (media db ++ [{| _id := new_id; fields := media_doc cat owner_id file now |}]) db) ∧
  media_doc cat owner_id file now !! link_field_of cat = Some (VStr owner_id) ∧
  (attachments cat owner_id db = [] →
     latest cat owner_id db = Raise (HTTPException 404 "No media found")) ∧
  (∀ detail, latest cat owner_id db ≠ Raise (HTTPException 400 detail)).
Proof.
  intros Hw Hf. split_and!.
  - by apply upload_fresh.
  - by destruct cat.
  - intros Ha. pose proof (latest_attachments cat owner_id db) as Hl. by rewrite Ha in Hl.
  - intros detail. rewrite latest_spec.
    destruct (find_one_latest _ _ _); [apply streaming_response_not_400|done].
Qed.

(** C10 at work: an owner id that is no identifier. *)
Lemma C10_owner_id_taken_verbatim_witness :
  ¬ well_formed_id (py "not-a-valid-id") ∧
  wrong_type (png [x01]) "image/" = false ∧
  (id_a ∉ ids (media empty_db)) ∧
  (upload_event_poster (py "not-a-valid-id") (png [x01]) 1000 id_a empty_db).1
    = Return (<["message"%string := VStr (py "Uploaded")]>
                {[ "id"%string := VStr (ObjectId_str id_a) ]}) ∧
  get_event_poster (py "not-a-valid-id") empty_db
    = Raise (HTTPException 404 "No media found").
Proof.
  assert (id_a ∉ ids (media empty_db)) as Ha by apply not_elem_of_nil.
  split; [intros [Hlen _]; vm_compute in Hlen; discriminate Hlen|].
  split; [reflexivity|]. split; [exact Ha|].
  destruct (C10_owner_id_taken_verbatim EventPoster (py "not-a-valid-id") (png [x01])
              1000%Z id_a empty_db eq_refl Ha) as (Hup & _ & H404 & _).
  change (upload EventPoster) with upload_event_poster in Hup.
  change (latest EventPoster) with get_event_poster in H404.
  rewrite Hup. split; [reflexivity|]. by apply H404.
Defined.

(** C10, as stated, fails for a malformed owner id that has had an upload:
    the latest retrieval serves that upload, it does not raise 404. *)
Lemma C10_malformed_owner_id_is_served :
  let db1 := (upload_event_poster (py "not-a-valid-id") (png [x01]) 1000 id_a empty_db).2 in
  ObjectId_of_str (py "not-a-valid-id") = None ∧
  streamed <$> get_event_poster (py "not-a-valid-id") db1 = Return [x01] ∧
  ∀ detail, get_event_poster (py "not-a-valid-id") db1 ≠ Raise (HTTPException 404 detail).
Proof. intros db1. split_and!; [vm_compute; reflexivity..|intros detail; vm_compute; discriminate]. Qed.

(** * Further properties *)

(** ** More on the guard *)

(** X1.  The middleware raises nothing but HTTP 400 "Invalid input
    detected", and only for a POST, PUT or PATCH request with a JSON
    content type whose non-empty body parses to a payload that is not
    benign. *)
Theorem X1_middleware_raises_only_invalid_input `{UnicodeData} `{CallStack} `{JsonParser} {A}
    (frames : nat) (request : Request) (call_next : Request → A) (e : Exception) :
  injection_protection_middleware frames request call_next = Raise e →
  e = HTTPException 400 "Invalid input detected" ∧
  guarded request = true ∧
  body request ≠ [] ∧
  ∃ payload, loads_utf8 (body request) = Some payload ∧ ¬ benign payload.
Proof.
  unfold injection_protection_middleware.
  destruct (guarded request); [|done].
  destruct (body request) as [|b bs] eqn:Hb; [done|]. cbn [nonempty].
  destruct (loads_utf8 (b :: bs)) as [payload|] eqn:Hp; [|done].
  pose proof (sanitize_payload_cases frames payload) as Hs.
  destruct (sanitize_payload frames payload) as [[]|[]]; try done.
  destruct Hs as [Hs|[Hs Hc]]; [done|]. intros [= <-].
  split_and!; [done..|]. exists payload. split; [done|].
  rewrite <- clean_benign. congruence.
Qed.

Lemma X1_middleware_raises_only_invalid_input_witness :
  @injection_protection_middleware ascii_only two_frames example_parser _ 900
      (post_json body_key_dot) id
    = Raise invalid_input ∧
  guarded (post_json body_key_dot) = true ∧
  ∃ payload, @loads_utf8 example_parser (body (post_json body_key_dot)) = Some payload ∧
             ¬ @benign ascii_only payload.
Proof.
  assert (@injection_protection_middleware ascii_only two_frames example_parser _ 900
            (post_json body_key_dot) id = Raise invalid_input) as Hr
    by (vm_compute; reflexivity).
  split; [exact Hr|].
  destruct (@X1_middleware_raises_only_invalid_input ascii_only two_frames example_parser _
              900 (post_json body_key_dot) id invalid_input Hr) as (_ & Hg & _ & Hp).
  split; [exact Hg|exact Hp].
Defined.

(** X2.  [scan_for_injection] raises HTTP 400 exactly on the blacklisted
    strings, and returns on all others, the empty string among them. *)
Theorem X2_scan_for_injection_blacklist `{UnicodeData} (value : pystr) :
  (scan_for_injection value = Raise (HTTPException 400 "Invalid input detected")
     ↔ blacklisted value) ∧
  (scan_for_injection value = Return tt ↔ ¬ blacklisted value).
Proof.
  rewrite scan_for_injection_spec, <- search_BLOCK_PATTERN.
  destruct (search BLOCK_PATTERN value); split; split; done.
Qed.


Lemma blacklisted_suspicious `{UnicodeData} (s : pystr) :
  blacklisted s → ∃ c, c ∈ s ∧ c ∈ suspicious_chars.
Proof.
  intros (pre & post & -> & [(c & rest & Hc & ->)|[(m & rest & Hm & ->)|Hk]]).
  - exists c. split; [rewrite elem_of_app, elem_of_cons; auto|].
    unfold special_chars, suspicious_chars in *. cbn in *.
    rewrite !elem_of_cons in *. tauto.
  - unfold comment_marks in Hm. rewrite !elem_of_cons, elem_of_nil in Hm.
    destruct Hm as [->|[->|[->|[]]]]; cbn.
    + exists 45. split; [rewrite elem_of_app, !elem_of_cons; auto|].
      cbn. rewrite !elem_of_cons. tauto.
    + exists 47. split; [rewrite elem_of_app, !elem_of_cons; auto|].
      cbn. rewrite !elem_of_cons. tauto.
    + exists 42. split; [rewrite elem_of_app, !elem_of_cons; auto|].
      cbn. rewrite !elem_of_cons. tauto.
  - destruct Hk as (tok & ws & d1 & d2 & rest & _ & -> & _).
    exists 61. split; [rewrite !elem_of_app, !elem_of_cons; auto 10|].
    cbn. rewrite !elem_of_cons. tauto.
Qed.

(** X3.  A string with none of the characters [$ { } [ ] ; - / * =]
    passes [scan_for_injection]: dots, at signs, quotes and the words OR
    and AND alone do not make it raise. *)
Theorem X3_scan_passes_plain_text `{UnicodeData} (value : pystr) :
  (∀ c, c ∈ value → c ∉ suspicious_chars) →
  scan_for_injection value = Return tt.
Proof.
  intros Hs. rewrite scan_for_injection_spec.
  destruct (search BLOCK_PATTERN value) eqn:Hm; [|done].
  apply search_BLOCK_PATTERN, blacklisted_suspicious in Hm as (c & Hc & Hb).
  by destruct (Hs c Hc).
Qed.

Lemma X3_scan_passes_plain_text_witness :
  (∀ c, c ∈ py "ann.lee+test@example.com or 11 AND 2" → c ∉ suspicious_chars) ∧
  @scan_for_injection ascii_only (py "ann.lee+test@example.com or 11 AND 2") = Return tt.
Proof.
  assert (∀ c, c ∈ py "ann.lee+test@example.com or 11 AND 2" → c ∉ suspicious_chars) as Hs.
  { intros c Hc Hb. apply list_elem_of_In in Hc, Hb.
    assert (existsb (λ x, existsb (N.eqb x) suspicious_chars)
              (py "ann.lee+test@example.com or 11 AND 2") = true) as Hex.
    { apply existsb_exists. exists c. split; [done|].
      apply existsb_exists. exists c. split; [done|apply N.eqb_refl]. }
    vm_compute in Hex. discriminate Hex. }
  split; [exact Hs|]. exact (@X3_scan_passes_plain_text ascii_only _ Hs).
Defined.

(** X4.  With [frames] frames left for the nested calls,
    [sanitize_payload] passes a list exactly when it passes every item,
    and a mapping exactly when no key holds [$] or [.] and it passes
    every value.  Whatever the frames, it raises nothing but HTTP 400
    "Invalid input detected" and [RecursionError], it passes benign
    payloads only, and raises HTTP 400 on none of them. *)
Theorem X4_sanitize_payload_by_parts `{UnicodeData} `{CallStack} (frames : nat) :
  (∀ items, sanitize_payload (S frames) (JList items) = Return tt
            ↔ Forall (λ item, sanitize_payload frames item = Return tt) items) ∧
  (∀ items, sanitize_payload (S frames) (JDict items) = Return tt
            ↔ Forall (λ kv, (36 ∉ kv.1) ∧ (46 ∉ kv.1) ∧
                            sanitize_payload frames kv.2 = Return tt) items) ∧
  (∀ obj e, sanitize_payload frames obj = Raise e →
            e = HTTPException 400 "Invalid input detected" ∨ e = RecursionError) ∧
  (∀ obj, sanitize_payload frames obj = Return tt → benign obj) ∧
  (∀ obj, sanitize_payload frames obj = Raise (HTTPException 400 "Invalid input detected") →
          ¬ benign obj).
Proof.
  split_and!.
  - intros items. cbn [sanitize_payload]. apply for_each_Return.
  - intros items. cbn [sanitize_payload]. rewrite for_each_Return.
    apply Forall_iff. intros [k v]. cbn beta iota. cbn [fst snd].
    fold (reserved_key k). destruct (reserved_key k) eqn:Hk.
    + apply reserved_key_iff in Hk.
      destruct (@raise_HTTPException_cases _ unit frames 400 "Invalid input detected")
        as [-> | ->]; (split; [done|tauto]).
    + apply not_true_iff_false in Hk. rewrite reserved_key_iff in Hk. tauto.
  - intros obj e He. pose proof (sanitize_payload_cases frames obj) as Hs.
    rewrite He in Hs. destruct Hs as [->|[-> _]]; auto.
  - intros obj Ho. pose proof (sanitize_payload_cases frames obj) as Hs.
    rewrite Ho in Hs. by apply clean_benign.
  - intros obj Ho. pose proof (sanitize_payload_cases frames obj) as Hs.
    rewrite Ho in Hs. destruct Hs as [?|[_ Hc]]; [done|].
    rewrite <- clean_benign. congruence.
Qed.

(** ** More on identifiers *)

(** X5.  [oid] and [str] are inverse on identifiers: the string of a
    12-byte ObjectId decodes to it, and a 24-character hexadecimal string
    decodes to 12 bytes that are written back as its lowercase.  What
    [oid] decodes at all comes from 24 characters and has 12 bytes at
    most, 12 for the hexadecimal strings only. *)
Theorem X5_oid_str_round_trips :
  (∀ o : ObjectId, length o = 12%nat → oid (ObjectId_str o) = Return o) ∧
  (∀ id_str : pystr, well_formed_id id_str →
     ∃ o, oid id_str = Return o ∧ length o = 12%nat ∧ ObjectId_str o = lower <$> id_str) ∧
  (∀ (id_str : pystr) (o : ObjectId), oid id_str = Return o →
     length id_str = 24%nat ∧ (length o ≤ 12)%nat ∧
     (length o = 12%nat → well_formed_id id_str)).
Proof.
  split_and!.
  - intros o Hl. apply oid_Return. by apply ObjectId_of_str_str.
  - intros s (o & Ho & Hl & Hs)%ObjectId_of_str_well_formed.
    exists o. by rewrite oid_Return.
  - intros s o Ho%oid_Return. split_and!.
    + assert (accepted_id s) as [? _]; [|done].
      apply ObjectId_of_str_is_Some. by eexists.
    + by eapply ObjectId_of_str_length.
    + intros Hl. by destruct (ObjectId_of_str_12 s o Ho Hl).
Qed.

Lemma X5_oid_str_round_trips_witness :
  length id_a = 12%nat ∧ oid (ObjectId_str id_a) = Return id_a ∧
  oid (py "654F1A2B3C4D5E6F708192A3") = Return id_a ∧
  well_formed_id (py "654F1A2B3C4D5E6F708192A3").
Proof.
  assert (oid (py "654F1A2B3C4D5E6F708192A3") = Return id_a) as Hu by (vm_compute; reflexivity).
  split; [reflexivity|]. split; [exact (proj1 X5_oid_str_round_trips id_a eq_refl)|].
  split; [exact Hu|].
  exact (proj2 (proj2 (proj2 (proj2 X5_oid_str_round_trips) _ _ Hu)) eq_refl).
Defined.

Lemma get_by_decoding (E : Entity) (s1 s2 : pystr) (db : DB) :
  ObjectId_of_str s1 = ObjectId_of_str s2 → get E s1 db = get E s2 db.
Proof. intros Heq. rewrite !get_spec. unfold get_or_404, oid. by rewrite Heq. Qed.

Lemma update_by_decoding (E : Entity) (s1 s2 : pystr) (e : Model E) (db : DB) :
  ObjectId_of_str s1 = ObjectId_of_str s2 → update E s1 e db = update E s2 e db.
Proof. intros Heq. destruct E; handlers; unfold oid; by rewrite Heq. Qed.

Lemma delete_by_decoding (E : Entity) (s1 s2 : pystr) (db : DB) :
  ObjectId_of_str s1 = ObjectId_of_str s2 → delete E s1 db = delete E s2 db.
Proof. intros Heq. destruct E; handlers; unfold oid; by rewrite Heq. Qed.

(** X6.  Two id strings that differ only in the case of their letters
    are the same id to get, update and delete. *)
Theorem X6_ids_ignore_letter_case (E : Entity) (s1 s2 : pystr) (e : Model E) (db : DB) :
  lower <$> s1 = lower <$> s2 →
  get E s1 db = get E s2 db ∧
  update E s1 e db = update E s2 e db ∧
  delete E s1 db = delete E s2 db.
Proof.
  intros Hl.
  assert (ObjectId_of_str s1 = ObjectId_of_str s2) as Heq.
  { by rewrite <- (ObjectId_of_str_lower s1), Hl, ObjectId_of_str_lower. }
  split_and!; [by apply get_by_decoding|by apply update_by_decoding|by apply delete_by_decoding].
Qed.

Lemma X6_ids_ignore_letter_case_witness :
  lower <$> py "654F1A2B3C4D5E6F708192A3" = lower <$> py "654f1a2b3c4d5e6f708192a3" ∧
  get_event (py "654F1A2B3C4D5E6F708192A3") (create_event summer_fest id_a empty_db).2
    = Return (<["_id"%string := VStr (py "654f1a2b3c4d5e6f708192a3")]> (model_dump summer_fest)).
Proof.
  split; [reflexivity|].
  destruct (X6_ids_ignore_letter_case Events (py "654F1A2B3C4D5E6F708192A3")
              (py "654f1a2b3c4d5e6f708192a3") summer_fest
              (create_event summer_fest id_a empty_db).2 eq_refl) as (Hg & _ & _).
  change (get Events) with get_event in Hg. rewrite Hg. vm_compute. reflexivity.
Defined.

(** X7.  What get returns for a 24-character hexadecimal id is a stored
    document of the collection, with its fields as stored and the
    requested id, in lowercase, as [_id]. *)
Theorem X7_get_returns_stored_document (E : Entity) (id_str : pystr) (db : DB)
    (doc : ExternalDoc) :
  well_formed_id id_str →
  get E id_str db = Return doc →
  ∃ d, d ∈ collection_of E db ∧
       ObjectId_str (_id d) = lower <$> id_str ∧
       doc = <["_id"%string := VStr (lower <$> id_str)]> (fields d).
Proof.
  intros (o & Ho & _ & Hs)%ObjectId_of_str_well_formed.
  rewrite get_spec, (get_or_404_decoded _ _ o Ho).
  destruct (find_one _ _) as [d|] eqn:Hd; [|done]. cbn.
  intros [= <-]. apply find_one_by_id_Some in Hd as [Hin <-].
  exists d. split_and!; [done..|]. unfold to_json. by rewrite Hs.
Qed.

Lemma X7_get_returns_stored_document_witness :
  well_formed_id (py "654F1A2B3C4D5E6F708192A3") ∧
  get_event (py "654F1A2B3C4D5E6F708192A3") (create_event summer_fest id_a empty_db).2
    = Return (<["_id"%string := VStr (py "654f1a2b3c4d5e6f708192a3")]> (model_dump summer_fest)) ∧
  ∃ d, d ∈ events (create_event summer_fest id_a empty_db).2 ∧
       ObjectId_str (_id d) = py "654f1a2b3c4d5e6f708192a3".
Proof.
  assert (well_formed_id (py "654F1A2B3C4D5E6F708192A3")) as Hw.
  { exact (proj1 (ObjectId_of_str_12 (py "654F1A2B3C4D5E6F708192A3") id_a eq_refl eq_refl)). }
  assert (get_event (py "654F1A2B3C4D5E6F708192A3") (create_event summer_fest id_a empty_db).2
    = Return (<["_id"%string := VStr (py "654f1a2b3c4d5e6f708192a3")]> (model_dump summer_fest)))
    as Hg by (vm_compute; reflexivity).
  split; [exact Hw|]. split; [exact Hg|].
  destruct (X7_get_returns_stored_document Events _ _ _ Hw Hg) as (d & Hin & Ho & _).
  exists d. split; [exact Hin|exact Ho].
Defined.

(** ** How the entity routes compose *)

Lemma find_one_app_other c o o' doc :
  o' ≠ o →
  find_one (c ++ [{| _id := o; fields := doc |}]) (by_id o') = find_one c (by_id o').
Proof.
  intros Hne. unfold find_one. rewrite filter_app, filter_cons, decide_False.
  - by rewrite filter_nil, app_nil_r.
  - rewrite matches_by_id. cbn. congruence.
Qed.

Lemma update_first_other c o o' new :
  o' ≠ o →
  find_one (update_first c (by_id o) new).2 (by_id o') = find_one c (by_id o').
Proof.
  intros Hne. unfold find_one. induction c as [|d c IH]; [done|]. cbn [update_first].
  destruct (matches (by_id o) d) eqn:Hm.
  - apply matches_by_id in Hm. cbn [snd]. rewrite !filter_cons.
    rewrite !decide_False; [done|rewrite matches_by_id; congruence
                                |rewrite matches_by_id; cbn; congruence].
  - destruct (update_first c (by_id o) new) as [n c'] eqn:Hu. cbn [snd] in *.
    rewrite !filter_cons. destruct (decide _); [done|exact IH].
Qed.

Lemma delete_one_other c o o' :
  o' ≠ o →
  find_one (delete_one c (by_id o)).2 (by_id o') = find_one c (by_id o').
Proof.
  intros Hne. unfold find_one. induction c as [|d c IH]; [done|]. cbn [delete_one].
  destruct (matches (by_id o) d) eqn:Hm.
  - apply matches_by_id in Hm. cbn [snd]. rewrite filter_cons.
    rewrite decide_False; [done|rewrite matches_by_id; congruence].
  - destruct (delete_one c (by_id o)) as [n c'] eqn:Hu. cbn [snd] in *.
    rewrite !filter_cons. destruct (decide _); [done|exact IH].
Qed.

Lemma delete_one_app_fresh c o doc :
  o ∉ ids c → delete_one (c ++ [{| _id := o; fields := doc |}]) (by_id o) = (1%nat, c).
Proof.
  unfold ids. induction c as [|d c IH]; intros Hf.
  - cbn. by rewrite bool_decide_eq_true_2.
  - rewrite fmap_cons, not_elem_of_cons in Hf. destruct Hf as [Hne Hf].
    cbn [app delete_one].
    assert (matches (by_id o) d = false) as ->.
    { apply not_true_iff_false. rewrite matches_by_id. congruence. }
    by rewrite (IH Hf).
Qed.

Lemma union_union_dom (n1 n2 f : gmap string value) :
  dom n1 = dom n2 → n2 ∪ (n1 ∪ f) = n2 ∪ f.
Proof.
  intros Hd. apply map_eq. intros i. rewrite !lookup_union.
  destruct (n2 !! i) eqn:H2; [by destruct (n1 !! i), (f !! i)|].
  apply not_elem_of_dom in H2. rewrite <- Hd in H2. apply not_elem_of_dom in H2.
  rewrite H2. by destruct (f !! i).
Qed.

Lemma update_first_twice c o n1 n2 :
  dom n1 = dom n2 →
  update_first (update_first c (by_id o) n1).2 (by_id o) n2 = update_first c (by_id o) n2.
Proof.
  intros Hd. induction c as [|d c IH]; [done|]. cbn [update_first].
  destruct (matches (by_id o) d) eqn:Hm.
  - cbn [snd update_first].
    assert (matches (by_id o) {| _id := _id d; fields := n1 ∪ fields d |} = true) as ->.
    { apply matches_by_id. by apply matches_by_id in Hm. }
    cbn. by rewrite union_union_dom.
  - destruct (update_first c (by_id o) n1) as [k c'] eqn:Hu. cbn [snd update_first] in *.
    rewrite Hm, IH. by destruct (update_first c (by_id o) n2).
Qed.

Lemma get_decoded (E : Entity) (id_str : pystr) (o : ObjectId) (db : DB) :
  ObjectId_of_str id_str = Some o →
  get E id_str db =
    match find_one (collection_of E db) (by_id o) with
    | Some doc => Return (to_json doc)
    | None => Raise (HTTPException 404 "Not found")
    end.
Proof.
  intros Ho. rewrite get_spec, (get_or_404_decoded _ _ o Ho). by destruct (find_one _ _).
Qed.

Lemma get_malformed (E : Entity) (id_str : pystr) (db : DB) :
  ObjectId_of_str id_str = None →
  get E id_str db = Raise (HTTPException 400 "Invalid id format").
Proof. intros Ho. rewrite get_spec. unfold get_or_404, oid. by rewrite Ho. Qed.

(** X8.  After a create of an entity whose integers fit in 64 bits,
    with a fresh id, the list shows the new entity last when the
    collection held fewer than 100 documents, and is unchanged when it
    held 100 or more: the new entity is then not listed. *)
Theorem X8_list_shows_new_entity_below_cap (E : Entity) (e : Model E)
    (new_id : ObjectId) (db : DB) :
  bson_encodable (dump e) = true →
  new_id ∉ ids (collection_of E db) →
  list_all E (create E e new_id db).2 =
    if decide (length (collection_of E db) < 100)%nat
    then list_all E db ++ [<["_id"%string := VStr (ObjectId_str new_id)]> (dump e)]
    else list_all E db.
Proof.
  intros He Hf. rewrite create_spec, insert_one_fresh by done. cbn [snd].
  rewrite !list_all_spec, collection_of_set. case_decide as Hl.
  - rewrite !take_ge by (rewrite ?length_app; cbn; lia). by rewrite fmap_app.
  - by rewrite take_app_le by lia.
Qed.

Lemma X8_list_shows_new_entity_below_cap_witness :
  bson_encodable (model_dump winter_ball) = true ∧
  (id_b ∉ ids (events (create_event summer_fest id_a empty_db).2)) ∧
  list_events (create_event winter_ball id_b (create_event summer_fest id_a empty_db).2).2
    = [<["_id"%string := VStr (ObjectId_str id_a)]> (model_dump summer_fest);
       <["_id"%string := VStr (ObjectId_str id_b)]> (model_dump winter_ball)].
Proof.
  assert (bson_encodable (model_dump winter_ball) = true) as He by (vm_compute; reflexivity).
  assert (id_b ∉ ids (events (create_event summer_fest id_a empty_db).2)) as Hf.
  { intros [Heq|Hin%elem_of_nil]%elem_of_cons; [discriminate Heq|done]. }
  split; [exact He|]. split; [exact Hf|].
  exact (X8_list_shows_new_entity_below_cap Events winter_ball id_b
           (create_event summer_fest id_a empty_db).2 He Hf).
Defined.

(** X9.  The routes of an entity collection write neither the media
    collection nor another entity collection, and an upload writes no
    entity collection. *)
Theorem X9_routes_write_their_own_collection (E E' : Entity) (db : DB) :
  (∀ e new_id, media (create E e new_id db).2 = media db ∧
               (E ≠ E' → collection_of E' (create E e new_id db).2 = collection_of E' db)) ∧
  (∀ id_str e, media (update E id_str e db).2 = media db ∧
               (E ≠ E' → collection_of E' (update E id_str e db).2 = collection_of E' db)) ∧
  (∀ id_str, media (delete E id_str db).2 = media db ∧
             (E ≠ E' → collection_of E' (delete E id_str db).2 = collection_of E' db)) ∧
  (∀ cat owner_id file now new_id,
     collection_of E' (upload cat owner_id file now new_id db).2 = collection_of E' db).
Proof.
  assert (∀ c, media (set_collection E c db) = media db) as Hm by (by destruct E).
  assert (∀ c, E ≠ E' → collection_of E' (set_collection E c db) = collection_of E' db) as Hc
    by (by destruct E, E').
  split_and!.
  - intros e new_id. rewrite create_spec. cbn [snd]. auto.
  - intros id_str e.
    destruct (update_cases E id_str e db) as [[err ->]|(o & _ & _ & ->)]; cbn [snd]; auto.
  - intros id_str. destruct (ObjectId_of_str id_str) as [o|] eqn:Ho.
    + rewrite (delete_spec E id_str o db Ho). cbn [snd]. auto.
    + by rewrite delete_malformed.
  - intros cat owner_id file now new_id.
    destruct (upload_cases cat owner_id file now new_id db) as [[err ->]|(_ & _ & ->)];
      [done|]. cbn [snd]. by destruct E'.
Qed.

Lemma X9_routes_write_their_own_collection_witness :
  Events ≠ Venues ∧
  venues (create_event summer_fest id_a empty_db).2 = venues empty_db ∧
  media (create_event summer_fest id_a empty_db).2 = media empty_db.
Proof.
  assert (Events ≠ Venues) as Hne by discriminate.
  destruct (proj1 (X9_routes_write_their_own_collection Events Venues empty_db)
              summer_fest id_a) as [Hm Hc].
  split; [exact Hne|]. split; [exact (Hc Hne)|exact Hm].
Defined.

(** X10.  A create, update or delete of one id leaves what get returns
    for every other id as it was. *)
Theorem X10_other_ids_untouched (E : Entity) (other : pystr) (db : DB) :
  (∀ e new_id, ObjectId_of_str other ≠ Some new_id →
               get E other (create E e new_id db).2 = get E other db) ∧
  (∀ id_str e, ObjectId_of_str id_str ≠ ObjectId_of_str other →
               get E other (update E id_str e db).2 = get E other db) ∧
  (∀ id_str, ObjectId_of_str id_str ≠ ObjectId_of_str other →
             get E other (delete E id_str db).2 = get E other db).
Proof.
  destruct (ObjectId_of_str other) as [o'|] eqn:Ho'; cycle 1.
  { split_and!; intros; by rewrite !get_malformed. }
  split_and!.
  - intros e new_id Hne. rewrite !(get_decoded E other o') by done.
    destruct (create_cases E e new_id db) as [[err ->]|(_ & _ & ->)]; [done|].
    cbn [snd]. rewrite collection_of_set.
    rewrite find_one_app_other; [done|congruence].
  - intros id_str e Hne. rewrite !(get_decoded E other o') by done.
    destruct (update_cases E id_str e db) as [[err ->]|(o & Ho & _ & ->)]; [done|].
    cbn [snd]. rewrite collection_of_set.
    rewrite update_first_other; [done|congruence].
  - intros id_str Hne. rewrite !(get_decoded E other o') by done.
    destruct (ObjectId_of_str id_str) as [o|] eqn:Ho.
    + rewrite (delete_spec E id_str o db Ho). cbn [snd]. rewrite collection_of_set.
      rewrite delete_one_other; [done|congruence].
    + by rewrite delete_malformed.
Qed.

Lemma X10_other_ids_untouched_witness :
  ObjectId_of_str (ObjectId_str id_b) ≠ ObjectId_of_str (ObjectId_str id_a) ∧
  get_event (ObjectId_str id_a)
    (delete_event (ObjectId_str id_b)
       (create_event winter_ball id_b (create_event summer_fest id_a empty_db).2).2).2
  = Return (<["_id"%string := VStr (ObjectId_str id_a)]> (model_dump summer_fest)).
Proof.
  assert (ObjectId_of_str (ObjectId_str id_b) ≠ ObjectId_of_str (ObjectId_str id_a)) as Hne.
  { vm_compute. discriminate. }
  split; [exact Hne|].
  pose proof (proj2 (proj2 (X10_other_ids_untouched Events (ObjectId_str id_a)
    (create_event winter_ball id_b (create_event summer_fest id_a empty_db).2).2))
    (ObjectId_str id_b) Hne) as H.
  change (get Events) with get_event in H. change (delete Events) with delete_event in H.
  rewrite H. vm_compute. reflexivity.
Defined.

(** X11.  Of two updates of the same id in a row, the second with an
    entity whose integers fit in 64 bits, the second wins: the answer and
    the database are those of the second update alone. *)
Theorem X11_last_update_wins (E : Entity) (id_str : pystr) (e1 e2 : Model E) (db : DB) :
  bson_encodable (dump e2) = true →
  update E id_str e2 (update E id_str e1 db).2 = update E id_str e2 db.
Proof.
  intros He2.
  destruct (update_cases E id_str e1 db) as [[err ->]|(o & Ho & _ & ->)]; [done|].
  rewrite !(update_spec E id_str o _ _ Ho He2). cbn [snd].
  rewrite collection_of_set, update_first_twice by apply dom_dump.
  by rewrite set_collection_twice.
Qed.

Lemma X11_last_update_wins_witness :
  let db1 := (create_event summer_fest id_a empty_db).2 in
  bson_encodable (model_dump winter_ball) = true ∧
  update_event (ObjectId_str id_a) winter_ball
    (update_event (ObjectId_str id_a) crowded_fest db1).2
  = update_event (ObjectId_str id_a) winter_ball db1.
Proof.
  intros db1.
  assert (bson_encodable (model_dump winter_ball) = true) as He by (vm_compute; reflexivity).
  split; [exact He|].
  exact (X11_last_update_wins Events (ObjectId_str id_a) crowded_fest winter_ball db1 He).
Defined.

(** X12.  Deleting an entity, its integers within 64 bits, right after
    creating it (with a fresh 12-byte id) answers and gives back the
    database as it was before. *)
Theorem X12_delete_undoes_create (E : Entity) (e : Model E) (new_id : ObjectId) (db : DB) :
  bson_encodable (dump e) = true →
  length new_id = 12%nat →
  new_id ∉ ids (collection_of E db) →
  delete E (ObjectId_str new_id) (create E e new_id db).2
    = (Return (message (label E +:+ " deleted")), db).
Proof.
  intros He Hl Hf. rewrite create_spec, insert_one_fresh by done. cbn [snd].
  rewrite (delete_spec E _ new_id) by by apply ObjectId_of_str_str.
  rewrite collection_of_set, delete_one_app_fresh by done. cbn [fst snd].
  by rewrite set_collection_twice, set_collection_same.
Qed.

Lemma X12_delete_undoes_create_witness :
  bson_encodable (model_dump summer_fest) = true ∧
  length id_a = 12%nat ∧ (id_a ∉ ids (events empty_db)) ∧
  delete_event (ObjectId_str id_a) (create_event summer_fest id_a empty_db).2
    = (Return (message "Event deleted"), empty_db).
Proof.
  assert (bson_encodable (model_dump summer_fest) = true) as He by (vm_compute; reflexivity).
  assert (id_a ∉ ids (events empty_db)) as Hf by apply not_elem_of_nil.
  split; [exact He|]. split; [reflexivity|]. split; [exact Hf|].
  exact (X12_delete_undoes_create Events summer_fest id_a empty_db He eq_refl Hf).
Defined.

(** ** More on the media store *)

Lemma startswith_iff (t p : pystr) : startswith t p = true ↔ ∃ rest, t = p ++ rest.
Proof.
  revert t. induction p as [|a p IH]; intros t; cbn [startswith].
  - split; [by exists t|done].
  - destruct t as [|b t].
    + split; [done|]. by intros [rest ?].
    + rewrite andb_true_iff, N.eqb_eq, IH. split.
      * intros [-> [rest ->]]. by exists rest.
      * intros [rest [= -> ->]]. split; [done|by exists rest].
Qed.

Lemma wrong_type_false (file : UploadFile) (cat : Category) :
  wrong_type file (mime_prefix cat) = false ↔
  ∃ rest, content_type file = Some (py (mime_prefix cat) ++ rest).
Proof.
  unfold wrong_type. destruct (content_type file) as [t|].
  - rewrite orb_false_iff, !negb_false_iff, startswith_iff. split.
    + intros [_ [rest ->]]. by exists rest.
    + intros [rest [= ->]]. split; [by destruct cat|by exists rest].
  - split; [done|]. by intros [rest ?].
Qed.

Lemma upload_wrong_type_spec (cat : Category) (owner_id : pystr) (file : UploadFile)
    (now : Z) (new_id : ObjectId) (db : DB) :
  wrong_type file (mime_prefix cat) = true →
  upload cat owner_id file now new_id db
    = (Raise (HTTPException 400 (wrong_type_detail cat)), db).
Proof.
  intros Hw. destruct cat; unfold upload, upload_event_poster, upload_promo_video,
    upload_venue_photo; cbn [mime_prefix] in Hw; by rewrite Hw.
Qed.

(** X13.  An upload raises HTTP 400, with the detail of its route and
    the database untouched, exactly when the file declares no content
    type or one that does not start with the prefix of the category; a
    declared type with the prefix never gives HTTP 400. *)
Theorem X13_upload_checks_declared_type_prefix (cat : Category) (owner_id : pystr)
    (file : UploadFile) (now : Z) (new_id : ObjectId) (db : DB) :
  ((∃ rest, content_type file = Some (py (mime_prefix cat) ++ rest)) →
     ∀ detail, (upload cat owner_id file now new_id db).1 ≠ Raise (HTTPException 400 detail)) ∧
  (¬ (∃ rest, content_type file = Some (py (mime_prefix cat) ++ rest)) →
     upload cat owner_id file now new_id db
       = (Raise (HTTPException 400 (wrong_type_detail cat)), db)).
Proof.
  rewrite <- wrong_type_false. split.
  - intros Hw detail. rewrite (upload_spec _ _ _ _ _ _ Hw). cbn [fst].
    unfold insert_one. destruct (negb _); [done|]. by case_bool_decide.
  - intros Hw%not_false_iff_true. by apply upload_wrong_type_spec.
Qed.

Lemma X13_upload_checks_declared_type_prefix_witness :
  (∃ rest, content_type (png [x01]) = Some (py "image/" ++ rest)) ∧
  (∀ detail, (upload_event_poster (py "e1") (png [x01]) 1000 id_a empty_db).1
             ≠ Raise (HTTPException 400 detail)) ∧
  ¬ (∃ rest, content_type (png [x01]) = Some (py "video/" ++ rest)) ∧
  upload_promo_video (py "e1") (png [x01]) 1000 id_a empty_db
    = (Raise (HTTPException 400 "Promo must be a video"), empty_db).
Proof.
  assert (∃ rest, content_type (png [x01]) = Some (py "image/" ++ rest)) as Hi
    by (by exists (py "png")).
  assert (¬ (∃ rest, content_type (png [x01]) = Some (py "video/" ++ rest))) as Hv
    by (intros [rest Hr]; vm_compute in Hr; discriminate Hr).
  split; [exact Hi|]. split.
  - exact (proj1 (X13_upload_checks_declared_type_prefix EventPoster (py "e1") (png [x01])
                    1000%Z id_a empty_db) Hi).
  - split; [exact Hv|].
    exact (proj2 (X13_upload_checks_declared_type_prefix PromoVideo (py "e1") (png [x01])
                    1000%Z id_a empty_db) Hv).
Defined.

Lemma find_one_latest_app_other c q k d :
  matches q d = false → find_one_latest (c ++ [d]) q k = find_one_latest c q k.
Proof.
  intros Hm. unfold find_one_latest. rewrite filter_app, filter_cons, decide_False by congruence.
  by rewrite filter_nil, app_nil_r.
Qed.

Lemma uploaded_other_pair cat owner_id cat' owner_id' file now o :
  (cat', owner_id') ≠ (cat, owner_id) →
  matches (attachment_query cat' owner_id')
    {| _id := o; fields := media_doc cat owner_id file now |} = false.
Proof.
  intros Hne. unfold matches, attachment_query. cbn [forallb].
  rewrite andb_true_r. apply andb_false_iff.
  destruct cat, cat';
    first [ right; apply bool_decide_eq_false; intros Heq; vm_compute in Heq;
            discriminate Heq
          | left; apply bool_decide_eq_false; intros Heq; apply Hne;
            vm_compute in Heq; by injection Heq as -> ].
Qed.

(** X14.  An upload for one owner and category does not change what the
    latest retrieval returns for any other owner or category. *)
Theorem X14_upload_leaves_other_pairs (cat cat' : Category) (owner_id owner_id' : pystr)
    (file : UploadFile) (now : Z) (new_id : ObjectId) (db : DB) :
  (cat', owner_id') ≠ (cat, owner_id) →
  latest cat' owner_id' (upload cat owner_id file now new_id db).2
    = latest cat' owner_id' db.
Proof.
  intros Hne. rewrite !latest_spec.
  destruct (upload_cases cat owner_id file now new_id db) as [[err ->]|(_ & _ & ->)];
    [done|]. cbn [snd media set_media].
  by rewrite find_one_latest_app_other by by apply uploaded_other_pair.
Qed.

Lemma X14_upload_leaves_other_pairs_witness :
  (PromoVideo, py "e1") ≠ (EventPoster, py "e1") ∧
  get_promo_video (py "e1") (upload_event_poster (py "e1") (png [x01]) 1000 id_a empty_db).2
    = Raise (HTTPException 404 "No media found").
Proof.
  assert ((PromoVideo, py "e1") ≠ (EventPoster, py "e1")) as Hne by discriminate.
  split; [exact Hne|].
  pose proof (X14_upload_leaves_other_pairs EventPoster PromoVideo (py "e1") (py "e1")
                (png [x01]) 1000%Z id_a empty_db Hne) as H.
  change (latest PromoVideo) with get_promo_video in H.
  change (upload EventPoster) with upload_event_poster in H.
  rewrite H. reflexivity.
Defined.

(** ** What every reachable database satisfies *)

Lemma set_collection_cases (E E' : Entity) c db :
  (E' = E ∧ collection_of E' (set_collection E c db) = c) ∨
  collection_of E' (set_collection E c db) = collection_of E' db.
Proof. destruct E, E'; auto. Qed.

Lemma media_set_collection (E : Entity) c db : media (set_collection E c db) = media db.
Proof. by destruct E. Qed.

Lemma collection_of_set_media (E : Entity) c db :
  collection_of E (set_media c db) = collection_of E db.
Proof. by destruct E. Qed.

Lemma insert_one_elem c doc o d :
  d ∈ (insert_one c doc o).2 → d ∈ c ∨ d = {| _id := o; fields := doc |}.
Proof.
  destruct (insert_one_cases c doc o) as [[err ->]|(_ & _ & ->)]; cbn [snd]; [auto|].
  rewrite elem_of_app, elem_of_cons, elem_of_nil. tauto.
Qed.

Lemma update_first_elem c q new d' :
  d' ∈ (update_first c q new).2 →
  d' ∈ c ∨ ∃ d, d ∈ c ∧ d' = {| _id := _id d; fields := new ∪ fields d |}.
Proof.
  induction c as [|x c IH]; [by intros ?%elem_of_nil|]. cbn [update_first].
  destruct (matches q x).
  - cbn [snd]. rewrite !elem_of_cons. intros [->|?]; [right|left]; eauto.
    exists x. by rewrite elem_of_cons; auto.
  - destruct (update_first c q new) as [n c']. cbn [snd] in *.
    rewrite !elem_of_cons. intros [->|[?|(d & ? & ->)]%IH]; auto.
    right. exists d. rewrite elem_of_cons. auto.
Qed.

Lemma delete_one_elem c q d : d ∈ (delete_one c q).2 → d ∈ c.
Proof. intros Hd. eapply elem_of_sublist; [exact Hd|apply delete_one_sublist]. Qed.

Lemma insert_one_entities E c (e : Model E) o :
  length o = 12%nat → entities_shaped E c → entities_shaped E (insert_one c (dump e) o).2.
Proof.
  intros Hl [Hu Hs]. split; [by apply insert_one_unique|].
  intros d [Hd| ->]%insert_one_elem; [auto|]. split; [done|by exists e].
Qed.

Lemma update_first_entities E c q (e : Model E) :
  entities_shaped E c → entities_shaped E (update_first c q (dump e)).2.
Proof.
  intros [Hu Hs]. split; [by apply update_first_unique|].
  intros d' [Hd|(d & Hd & ->)]%update_first_elem; [auto|].
  destruct (Hs d Hd) as [Hl [e0 He0]]. split; [done|]. exists e. cbn.
  rewrite He0. apply union_same_dom, dom_dump.
Qed.

Lemma delete_one_entities E c q :
  entities_shaped E c → entities_shaped E (delete_one c q).2.
Proof.
  intros [Hu Hs]. split; [by apply delete_one_unique|].
  intros d Hd%delete_one_elem. auto.
Qed.

Lemma insert_one_media c cat owner_id file now o :
  length o = 12%nat → media_shaped c →
  media_shaped (insert_one c (media_doc cat owner_id file now) o).2.
Proof.
  intros Hl [Hu Hs]. split; [by apply insert_one_unique|].
  intros d [Hd| ->]%insert_one_elem; [auto|]. split; [done|]. by exists cat, owner_id, file, now.
Qed.

Lemma step_well_shaped db db' : step db db' → well_shaped db → well_shaped db'.
Proof.
  intros Hstep [He Hm]. unfold well_shaped.
  destruct Hstep as [E e o db Hl|E s e db|E s db|cat owner_id file now o db Hl].
  - rewrite create_spec. cbn [snd]. rewrite media_set_collection. split; [|done].
    intros E'. destruct (set_collection_cases E E' (insert_one (collection_of E db) (dump e) o).2 db)
      as [[-> ->]| ->]; [|done]. by apply insert_one_entities.
  - destruct (update_cases E s e db) as [[err ->]|(o & Ho & _ & ->)]; [done|].
    cbn [snd]. rewrite media_set_collection.
    split; [|done]. intros E'.
    destruct (set_collection_cases E E' (update_first (collection_of E db) (by_id o) (dump e)).2 db)
      as [[-> ->]| ->]; [|done]. by apply update_first_entities.
  - destruct (ObjectId_of_str s) as [o|] eqn:Ho; [|by rewrite delete_malformed].
    rewrite (delete_spec E s o db Ho). cbn [snd]. rewrite media_set_collection.
    split; [|done]. intros E'.
    destruct (set_collection_cases E E' (delete_one (collection_of E db) (by_id o)).2 db)
      as [[-> ->]| ->]; [|done]. by apply delete_one_entities.
  - destruct (wrong_type file (mime_prefix cat)) eqn:Hw.
    + by rewrite upload_wrong_type_spec.
    + rewrite (upload_spec _ _ _ _ _ _ Hw). cbn [snd media set_media]. split.
      * intros E. by rewrite collection_of_set_media.
      * by apply insert_one_media.
Qed.

Lemma reachable_well_shaped db : reachable db → well_shaped db.
Proof.
  induction 1 as [|db db' _ IH Hstep]; [|by eapply step_well_shaped].
  split.
  - intros E. split; [destruct E; apply NoDup_nil_2|]. by destruct E; intros d ?%elem_of_nil.
  - split; [apply NoDup_nil_2|]. by intros d ?%elem_of_nil.
Qed.

(** X15.  In every database the routes build from the empty one, every
    entity document holds the fields of an entity of its collection,
    every media document those of an upload, and ids have 12 bytes and
    are distinct within a collection. *)
Theorem X15_routes_keep_documents_well_shaped (db : DB) :
  reachable db → well_shaped db.
Proof. apply reachable_well_shaped. Qed.

Lemma X15_routes_keep_documents_well_shaped_witness :
  reachable (update_event (ObjectId_str id_a) winter_ball
               (create_event summer_fest id_a empty_db).2).2 ∧
  well_shaped (update_event (ObjectId_str id_a) winter_ball
                 (create_event summer_fest id_a empty_db).2).2.
Proof.
  assert (reachable (update_event (ObjectId_str id_a) winter_ball
                       (create_event summer_fest id_a empty_db).2).2) as Hr.
  { apply (reachable_step _ _ (reachable_step _ _ reachable_empty
             (step_create Events summer_fest id_a empty_db eq_refl))
             (step_update Events (ObjectId_str id_a) winter_ball _)). }
  split; [exact Hr|]. exact (X15_routes_keep_documents_well_shaped _ Hr).
Defined.

Lemma find_one_unique c d :
  unique_ids c → d ∈ c → find_one c (by_id (_id d)) = Some d.
Proof.
  unfold unique_ids, ids, find_one. induction c as [|x c IH]; [by intros _ ?%elem_of_nil|].
  rewrite fmap_cons, NoDup_cons, elem_of_cons, filter_cons. intros [Hx Hu] [->|Hd].
  - rewrite decide_True; [done|]. by apply matches_by_id.
  - rewrite decide_False; [by apply IH|]. rewrite matches_by_id. intros Heq.
    apply Hx. rewrite Heq. by apply list_elem_of_fmap_2.
Qed.

Lemma find_one_latest_elem c q k d : find_one_latest c q k = Some d → d ∈ c ∧ matches q d = true.
Proof.
  intros Hd. pose proof (find_one_latest_spec c q k) as Hs.
  destruct (filter _ c) as [|x l] eqn:Hf; [congruence|].
  destruct Hs as (d' & Hd' & Hin & _). rewrite <- Hf in Hin.
  apply list_elem_of_filter in Hin as [Hq Hin]. split; congruence.
Qed.

(** X16.  In every database the routes build from the empty one, the
    latest retrieval either raises HTTP 404, no attachment being stored
    for the owner and category, or answers from a stored upload of that
    owner and category: it serves its bytes, content type and file name
    when name and type can be written in latin-1, and ends in
    [UnicodeEncodeError] when not; it raises nothing else. *)
Theorem X16_latest_serves_or_404 (cat : Category) (owner_id : pystr) (db : DB) :
  reachable db →
  (attachments cat owner_id db = [] ∧
   latest cat owner_id db = Raise (HTTPException 404 "No media found")) ∨
  (∃ d file now,
     d ∈ media db ∧ fields d = media_doc cat owner_id file now ∧
     latest cat owner_id db
       = if latin1_headers file then Return (served file) else Raise UnicodeEncodeError).
Proof.
  intros [_ [_ Hm]]%reachable_well_shaped. rewrite latest_spec.
  pose proof (find_one_latest_spec (media db) (attachment_query cat owner_id) "uploaded_at") as Hs.
  destruct (find_one_latest _ _ _) as [d|] eqn:Hd.
  - right. apply find_one_latest_elem in Hd as [Hin Hq].
    destruct (Hm d Hin) as (_ & cat' & owner' & file & now & Hf).
    destruct d as [o f]. cbn in Hf. subst f.
    unfold matches, attachment_query in Hq. cbn [forallb] in Hq.
    rewrite andb_true_r in Hq.
    apply andb_true_iff in Hq as [Ho%bool_decide_eq_true Hq%bool_decide_eq_true].
    assert (cat' = cat) as ->.
    { destruct cat, cat'; try done; vm_compute in Hq; discriminate Hq. }
    assert (owner' = owner_id) as ->.
    { destruct cat; vm_compute in Ho; by injection Ho as ->. }
    exists {| _id := o; fields := media_doc cat owner_id file now |}, file, now.
    split_and!; [done..|]. apply streaming_response_uploaded.
  - left. split; [|done]. unfold attachments.
    destruct (filter _ (media db)); [done|]. destruct Hs as (? & ? & _). congruence.
Qed.

Lemma X16_latest_serves_or_404_witness :
  reachable (upload_event_poster (py "e1") (png [x01]) 1000 id_a empty_db).2 ∧
  streamed <$> get_event_poster (py "e1")
                 (upload_event_poster (py "e1") (png [x01]) 1000 id_a empty_db).2
    = Return [x01] ∧
  get_event_poster (py "e2") (upload_event_poster (py "e1") (png [x01]) 1000 id_a empty_db).2
    = Raise (HTTPException 404 "No media found").
Proof.
  assert (reachable (upload_event_poster (py "e1") (png [x01]) 1000 id_a empty_db).2) as Hr.
  { apply (reachable_step _ _ reachable_empty
             (step_upload EventPoster (py "e1") (png [x01]) 1000%Z id_a empty_db eq_refl)). }
  split; [exact Hr|]. split.
  - destruct (X16_latest_serves_or_404 EventPoster (py "e1") _ Hr)
      as [[Ha _]|(d & file & now & Hin & Hf & Hl)].
    + vm_compute in Ha. discriminate Ha.
    + vm_compute. reflexivity.
  - destruct (X16_latest_serves_or_404 EventPoster (py "e2") _ Hr)
      as [[_ Hl]|(d & file & now & Hin & Hf & Hl)].
    + exact Hl.
    + change (latest EventPoster (py "e2") _)
        with (@Raise StreamingResponse (HTTPException 404 "No media found")) in Hl.
      destruct (latin1_headers file); discriminate Hl.
Defined.

(** X17.  In every database the routes build from the empty one, every
    document the list shows carries a string [_id] under which get
    returns that same document. *)
Theorem X17_listed_documents_can_be_fetched (E : Entity) (db : DB) (doc : ExternalDoc) :
  reachable db →
  doc ∈ list_all E db →
  ∃ id_str, doc !! "_id"%string = Some (VStr id_str) ∧ get E id_str db = Return doc.
Proof.
  intros [He _]%reachable_well_shaped. destruct (He E) as [Hu Hs].
  rewrite list_all_spec. intros (d & -> & Hd)%list_elem_of_fmap.
  assert (d ∈ collection_of E db) as Hin.
  { eapply elem_of_sublist; [exact Hd|]. apply sublist_take. }
  destruct (Hs d Hin) as [Hl _]. exists (ObjectId_str (_id d)). split.
  - unfold to_json. apply lookup_insert_eq.
  - rewrite (get_decoded E _ (_id d)) by by apply ObjectId_of_str_str.
    by rewrite find_one_unique.
Qed.

Lemma X17_listed_documents_can_be_fetched_witness :
  reachable (create_event summer_fest id_a empty_db).2 ∧
  (<["_id"%string := VStr (ObjectId_str id_a)]> (model_dump summer_fest)
     ∈ list_events (create_event summer_fest id_a empty_db).2) ∧
  ∃ id_str, get_event id_str (create_event summer_fest id_a empty_db).2
            = Return (<["_id"%string := VStr (ObjectId_str id_a)]> (model_dump summer_fest)).
Proof.
  assert (reachable (create_event summer_fest id_a empty_db).2) as Hr.
  { apply (reachable_step _ _ reachable_empty
             (step_create Events summer_fest id_a empty_db eq_refl)). }
  assert (<["_id"%string := VStr (ObjectId_str id_a)]> (model_dump summer_fest)
            ∈ list_events (create_event summer_fest id_a empty_db).2) as Hin.
  { apply elem_of_cons. left. reflexivity. }
  split; [exact Hr|]. split; [exact Hin|].
  destruct (X17_listed_documents_can_be_fetched Events _ _ Hr Hin) as (id_str & _ & Hg).
  exists id_str. exact Hg.
Defined.

(** X18.  In every database the routes build from the empty one, after an
    update that answered, get with the same id returns the new entity's
    fields and the id, and nothing else. *)
Theorem X18_answered_update_reads_back (E : Entity) (id_str : pystr) (e : Model E)
    (db : DB) (answer : ExternalDoc) :
  reachable db →
  (update E id_str e db).1 = Return answer →
  get E id_str (update E id_str e db).2
    = Return (<["_id"%string := VStr (lower <$> id_str)]> (dump e)).
Proof.
  intros [He _]%reachable_well_shaped. destruct (He E) as [_ Hs].
  destruct (update_cases E id_str e db) as [[err ->]|(o & Ho & _ & ->)]; [done|].
  cbn [fst snd].
  pose proof (update_first_by_id (collection_of E db) o (dump e)) as Hu.
  destruct (find_one (collection_of E db) (by_id o)) as [d|] eqn:Hd.
  - destruct Hu as (c' & -> & Hf & _). cbn [fst snd]. intros _.
    rewrite (get_decoded E id_str o) by done. rewrite collection_of_set, Hf.
    apply find_one_by_id_Some in Hd as [Hin Hid]. destruct (Hs d Hin) as [Hl [e0 He0]].
    unfold to_json. cbn [_id fields]. rewrite He0, union_same_dom by apply dom_dump.
    rewrite Hid in Hl. by destruct (ObjectId_of_str_12 _ _ Ho Hl) as [_ ->].
  - rewrite Hu. cbn. done.
Qed.

Lemma X18_answered_update_reads_back_witness :
  reachable (create_event summer_fest id_a empty_db).2 ∧
  (update_event (py "654F1A2B3C4D5E6F708192A3") winter_ball
     (create_event summer_fest id_a empty_db).2).1 = Return (message "Event updated") ∧
  get_event (py "654F1A2B3C4D5E6F708192A3")
    (update_event (py "654F1A2B3C4D5E6F708192A3") winter_ball
       (create_event summer_fest id_a empty_db).2).2
    = Return (<["_id"%string := VStr (py "654f1a2b3c4d5e6f708192a3")]> (model_dump winter_ball)).
Proof.
  assert (reachable (create_event summer_fest id_a empty_db).2) as Hr.
  { apply (reachable_step _ _ reachable_empty
             (step_create Events summer_fest id_a empty_db eq_refl)). }
  assert ((update_event (py "654F1A2B3C4D5E6F708192A3") winter_ball
             (create_event summer_fest id_a empty_db).2).1 = Return (message "Event updated"))
    as Hu by (vm_compute; reflexivity).
  split; [exact Hr|]. split; [exact Hu|].
  exact (X18_answered_update_reads_back Events _ winter_ball _ _ Hr Hu).
Defined.

(** X19.  No write through a route removes or alters a stored media
    document: the media collection only grows at its end, and an owner
    and category that had an attachment still have one. *)
Theorem X19_media_documents_are_kept (db db' : DB) :
  step db db' →
  (∃ added, media db' = media db ++ added) ∧
  ∀ cat owner_id, attachments cat owner_id db ≠ [] → attachments cat owner_id db' ≠ [].
Proof.
  intros Hstep.
  assert (∃ added, media db' = media db ++ added) as [added Ha].
  { destruct Hstep as [E e o db Hl|E s e db|E s db|cat owner_id file now o db Hl].
    - exists []. rewrite create_spec. cbn [snd]. by rewrite media_set_collection, app_nil_r.
    - exists []. rewrite app_nil_r.
      destruct (update_cases E s e db) as [[err ->]|(o & Ho & _ & ->)]; [done|].
      cbn [snd]. by rewrite media_set_collection.
    - exists []. rewrite app_nil_r. destruct (ObjectId_of_str s) as [o|] eqn:Ho.
      + rewrite (delete_spec E s o db Ho). cbn [snd]. by rewrite media_set_collection.
      + by rewrite delete_malformed.
    - destruct (upload_cases cat owner_id file now o db) as [[err ->]|(_ & _ & ->)].
      + exists []. by rewrite app_nil_r.
      + cbn [snd media set_media]. by eexists. }
  split; [by exists added|]. intros cat owner_id Hne. unfold attachments in *.
  rewrite Ha, filter_app. intros [? _]%app_eq_nil. done.
Qed.

Lemma X19_media_documents_are_kept_witness :
  step (upload_event_poster (py "e1") (png [x01]) 1000 id_a empty_db).2
       (upload_event_poster (py "e1") (png [x02]) 2000 id_b
          (upload_event_poster (py "e1") (png [x01]) 1000 id_a empty_db).2).2 ∧
  ∃ added,
    media (upload_event_poster (py "e1") (png [x02]) 2000 id_b
             (upload_event_poster (py "e1") (png [x01]) 1000 id_a empty_db).2).2
    = media (upload_event_poster (py "e1") (png [x01]) 1000 id_a empty_db).2 ++ added.
Proof.
  pose proof (step_upload EventPoster (py "e1") (png [x02]) 2000%Z id_b
                (upload_event_poster (py "e1") (png [x01]) 1000 id_a empty_db).2 eq_refl) as Hs.
  split; [exact Hs|]. exact (proj1 (X19_media_documents_are_kept _ _ Hs)).
Defined.

(** ** Failures and counts *)

Lemma update_first_unmatched c q new :
  (update_first c q new).1 = 0%nat → (update_first c q new).2 = c.
Proof.
  induction c as [|d c IH]; [done|]. cbn [update_first]. destruct (matches q d); [done|].
  destruct (update_first c q new) as [n c']. cbn [fst snd] in *. intros Hn. by rewrite IH.
Qed.

Lemma delete_one_unmatched c q :
  (delete_one c q).1 = 0%nat → (delete_one c q).2 = c.
Proof.
  induction c as [|d c IH]; [done|]. cbn [delete_one]. destruct (matches q d); [done|].
  destruct (delete_one c q) as [n c']. cbn [fst snd] in *. intros Hn. by rewrite IH.
Qed.

Lemma delete_one_length c q :
  length c = ((delete_one c q).1 + length (delete_one c q).2)%nat.
Proof.
  induction c as [|d c IH]; [done|]. cbn [delete_one]. destruct (matches q d); [done|].
  destruct (delete_one c q) as [n c']. cbn [fst snd length] in *. lia.
Qed.

Lemma delete_one_count c q : ((delete_one c q).1 ≤ 1)%nat.
Proof.
  induction c as [|d c IH]; [cbn; lia|]. cbn [delete_one]. destruct (matches q d); [cbn; lia|].
  by destruct (delete_one c q) as [n c'].
Qed.

Lemma message_or_404_Raise count text detail e :
  message_or_404 count text detail = Raise e → count = 0%nat.
Proof. unfold message_or_404. by case_bool_decide. Qed.

Lemma message_or_404_Return count text detail r :
  message_or_404 count text detail = Return r → count ≠ 0%nat.
Proof. unfold message_or_404. by case_bool_decide. Qed.

Lemma set_media_same db : set_media (media db) db = db.
Proof. by destruct db. Qed.

(** X20.  A create, update, delete or upload that raises, whatever it
    raises, leaves the database as it was. *)
Theorem X20_raising_route_changes_nothing (db : DB) (err : Exception) :
  (∀ E e new_id, (create E e new_id db).1 = Raise err → (create E e new_id db).2 = db) ∧
  (∀ E id_str e, (update E id_str e db).1 = Raise err → (update E id_str e db).2 = db) ∧
  (∀ E id_str, (delete E id_str db).1 = Raise err → (delete E id_str db).2 = db) ∧
  (∀ cat owner_id file now new_id,
     (upload cat owner_id file now new_id db).1 = Raise err →
     (upload cat owner_id file now new_id db).2 = db).
Proof.
  split_and!.
  - intros E e new_id.
    by destruct (create_cases E e new_id db) as [[err' ->]|(_ & _ & ->)].
  - intros E s e. destruct (update_cases E s e db) as [[err' ->]|(o & Ho & _ & ->)]; [done|].
    cbn [fst snd].
    intros Hc%message_or_404_Raise. by rewrite update_first_unmatched, set_collection_same.
  - intros E s. destruct (ObjectId_of_str s) as [o|] eqn:Ho; [|by rewrite delete_malformed].
    rewrite (delete_spec E s o db Ho). cbn [fst snd].
    intros Hc%message_or_404_Raise. by rewrite delete_one_unmatched, set_collection_same.
  - intros cat owner_id file now new_id.
    by destruct (upload_cases cat owner_id file now new_id db) as [[err' ->]|(_ & _ & ->)].
Qed.

Lemma X20_raising_route_changes_nothing_witness :
  (create_event winter_ball id_a (create_event summer_fest id_a empty_db).2).1
    = Raise DuplicateKeyError ∧
  (create_event winter_ball id_a (create_event summer_fest id_a empty_db).2).2
    = (create_event summer_fest id_a empty_db).2.
Proof.
  assert ((create_event winter_ball id_a (create_event summer_fest id_a empty_db).2).1
            = Raise DuplicateKeyError) as Hr by (vm_compute; reflexivity).
  split; [exact Hr|].
  exact (proj1 (X20_raising_route_changes_nothing
                  (create_event summer_fest id_a empty_db).2 DuplicateKeyError)
           Events winter_ball id_a Hr).
Defined.

(** X21.  An answered create adds its id at the end of the ids of the
    collection, an update keeps the ids and their order whatever it
    answers, and an answered delete removes exactly one document, the
    ids left keeping their order. *)
Theorem X21_answered_writes_count (E : Entity) (db : DB) (answer : ExternalDoc) :
  (∀ e new_id, (create E e new_id db).1 = Return answer →
     ids (collection_of E (create E e new_id db).2) = ids (collection_of E db) ++ [new_id]) ∧
  (∀ id_str e, ids (collection_of E (update E id_str e db).2) = ids (collection_of E db)) ∧
  (∀ id_str, (delete E id_str db).1 = Return answer →
     length (collection_of E db) = S (length (collection_of E (delete E id_str db).2)) ∧
     ids (collection_of E (delete E id_str db).2) `sublist_of` ids (collection_of E db)).
Proof.
  split_and!.
  - intros e new_id.
    destruct (create_cases E e new_id db) as [[err ->]|(_ & _ & ->)]; [done|].
    cbn [fst snd]. rewrite collection_of_set. intros _.
    unfold ids. by rewrite fmap_app.
  - intros s e. destruct (update_cases E s e db) as [[err ->]|(o & Ho & _ & ->)]; [done|].
    cbn [snd]. by rewrite collection_of_set, update_first_ids.
  - intros s. destruct (ObjectId_of_str s) as [o|] eqn:Ho; [|by rewrite delete_malformed].
    rewrite (delete_spec E s o db Ho). cbn [fst snd]. rewrite collection_of_set.
    intros Hc%message_or_404_Return. split.
    + pose proof (delete_one_length (collection_of E db) (by_id o)).
      pose proof (delete_one_count (collection_of E db) (by_id o)). lia.
    + apply fmap_sublist, delete_one_sublist.
Qed.

Lemma X21_answered_writes_count_witness :
  (delete_event (ObjectId_str id_a) (create_event summer_fest id_a empty_db).2).1
    = Return (message "Event deleted") ∧
  length (events (create_event summer_fest id_a empty_db).2)
    = S (length (events (delete_event (ObjectId_str id_a)
                           (create_event summer_fest id_a empty_db).2).2)).
Proof.
  assert ((delete_event (ObjectId_str id_a) (create_event summer_fest id_a empty_db).2).1
            = Return (message "Event deleted")) as Hr by (vm_compute; reflexivity).
  split; [exact Hr|].
  exact (proj1 (proj2 (proj2 (X21_answered_writes_count Events
                  (create_event summer_fest id_a empty_db).2 (message "Event deleted")))
                  (ObjectId_str id_a) Hr)).
Defined.
